(** * Pair analytics and signal engine: a shallow embedding

    The Python sources embedded here are
      - [analytics/features.py]               (hedge ratios, spread and
                                                z-score, alert engine)
      - [analytics/mean_reversion_backtest.py] (the z-score backtest)
      - [ingestion/resampler_filter.py]       (the liquidity filter)
      - [ingestion/duckdb_storage.py]         (the tick store)
      - [app.py]                              (the trading signals).

    Numbers are IEEE-754 binary64 values, as in CPython and NumPy: the model
    uses Rocq's primitive floats, so [nan], the two zeros and the infinities
    behave as they do in the program.  A pandas [Series] is the list of its
    (index label, value) rows in positional order; a missing value is [nan].
    Python exceptions are the [Raise] results of a small error monad. *)

From Stdlib Require Import String Floats ZArith List Bool Lia.
From Stdlib Require Import Sorting.Sorted Sorting.Permutation.
Import ListNotations.

Set Warnings "-inexact-float".

(** ** Python results and exceptions *)

Inductive exn : Type :=
| ZeroDivisionError
| IndexError
| OtherError (name : string).

Inductive result (A : Type) : Type :=
| Ok (a : A)
| Raise (e : exn).

Arguments Ok {A} a.
Arguments Raise {A} e.

Definition bind {A B : Type} (c : result A) (k : A -> result B) : result B :=
  match c with
  | Ok a => k a
  | Raise e => Raise e
  end.

Notation "x <- c ;; k" := (bind c (fun x => k))
  (at level 61, c at next level, right associativity).

(** [for x in xs: st = body(st, x)], stopping at the first exception. *)
Fixpoint for_each {S X : Type} (body : S -> X -> result S) (xs : list X) (st : S)
  : result S :=
  match xs with
  | [] => Ok st
  | x :: xs' => st' <- body st x ;; for_each body xs' st'
  end.

(** [range(a, b)]: the indices [a, a+1, ..., b-1], none when [b <= a]. *)
Definition range (a b : nat) : list nat := seq a (b - a).

(** ** Sequences, arrays and pandas series *)

(** [l[i]] for [0 <= i]: [IndexError] out of range. *)
Definition getitem {A : Type} (l : list A) (i : nat) : result A :=
  match nth_error l i with
  | Some a => Ok a
  | None => Raise IndexError
  end.

(** [l[i] = v] on a NumPy array: [IndexError] out of range. *)
Fixpoint setitem {A : Type} (l : list A) (i : nat) (v : A) : result (list A) :=
  match l, i with
  | [], _ => Raise IndexError
  | _ :: l', O => Ok (v :: l')
  | a :: l', S i' => l'' <- setitem l' i' v ;; Ok (a :: l'')
  end.

Definition Series : Type := list (Z * float).

Definition values (s : Series) : list float := map snd s.
Definition index (s : Series) : list Z := map fst s.

(** [s.iloc[i]] for [0 <= i]. *)
Definition iloc (s : Series) (i : nat) : result float := getitem (values s) i.

(** [s.iloc[-1]]: the last row, whatever its value. *)
Definition iloc_last (s : Series) : result float :=
  match length s with
  | O => Raise IndexError
  | S k => iloc s k
  end.

(** [s.index[i]]. *)
Definition index_at (s : Series) (i : nat) : result Z := getitem (index s) i.

Definition notna (v : float) : bool := negb (is_nan v).

(** [s.dropna()]: the rows whose value is not [nan], in order. *)
Definition dropna (s : Series) : Series := filter (fun p => notna (snd p)) s.

(** [pd.Series(data, index=labels)] for two lists of the same length. *)
Definition mk_series (data : list float) (labels : list Z) : Series :=
  combine labels data.

(** Python's true division of two [float]s: a zero divisor raises. *)
Definition py_div (a b : float) : result float :=
  if is_zero b then Raise ZeroDivisionError else Ok (a / b)%float.

(** The binary64 value of a (small) Python [int], as [int * float64] uses it. *)
Definition float_of_int (k : Z) : float :=
  match k with
  | Z0 => 0%float
  | Zpos _ => of_uint63 (Uint63.of_Z k)
  | Zneg _ => (- of_uint63 (Uint63.of_Z (- k)))%float
  end.

(** ** [features.py]: the adaptive (Kalman) hedge ratio *)

Module Kalman.

(** The loop state: the array [hr] and the scalar variance [P]. *)
Definition state : Type := (list float * float)%type.

Section Power.
(** [v**2] on a NumPy [float64] scalar [v = x.iloc[t]] (line 50).  NumPy hands
    the power to the C library's [pow(v, 2.0)], which does not promise the
    correctly rounded result: the value can differ in its last bit from the
    product [v * v].  The function belongs to the platform, not to this
    repository: it is a parameter here. *)
Variable pow2 : float -> float.

(** One pass of the body of [for t in range(n)] (lines 44-53). *)
Definition kalman_step (y x : Series) (Q R : float) (st : state) (t : nat)
  : result state :=
  let '(hr, P) := st in
  let P := if (0 <? t)%nat then (P + Q)%float else P in
  y_hat <- (if (0 <? t)%nat
            then h <- getitem hr (t - 1) ;; xt <- iloc x t ;; Ok (h * xt)%float
            else Ok 0%float) ;;
  yt <- iloc y t ;;
  let e := (yt - y_hat)%float in
  xt <- iloc x t ;;
  let K := (P * xt / (pow2 xt * P + R))%float in
  h' <- (if (0 <? t)%nat
         then h <- getitem hr (t - 1) ;; Ok (h + K * e)%float
         else Ok 0%float) ;;
  hr' <- setitem hr t h' ;;
  Ok (hr', ((1 - K * xt) * P)%float).

(** The state after the first [k] passes of the loop. *)
Definition kalman_run (y x : Series) (Q R : float) (k : nat) : result state :=
  for_each (kalman_step y x Q R) (range 0 k) (repeat 0%float (length y), 1%float).

(** [kalman_hedge_ratio(y, x, delta, R)] (lines 33-55); the defaults are
    [delta = 1e-4] and [R = 0.01].  [delta] and [R] are Python floats, as the
    defaults and the call of [app.py] (line 305) have them, so that
    [delta / (1 - delta)] is Python's division, which raises on a zero
    divisor. *)
Definition kalman_hedge_ratio (y x : Series) (delta R : float)
  : result (list float) :=
  let n := length y in
  Q <- py_div delta (1 - delta)%float ;;
  st <- kalman_run y x Q R n ;;
  Ok (fst st).

(** The recursion as the specification words it: [estimate t] is [h[t]] and
    [variance t] the value of [P] once observation [t] is processed;
    [prior t] is [P] after the predict step of observation [t] and [gain t]
    is its [K]. *)
Section Recursion.
Variables (ys xs : list float) (Q R : float).

Definition obs (l : list float) (t : nat) : float := nth t l 0%float.

Definition gain_of (P xt : float) : float := (P * xt / (pow2 xt * P + R))%float.

Fixpoint filter_at (t : nat) : float * float :=
  match t with
  | O =>
      let P := 1%float in
      let K := gain_of P (obs xs 0) in
      (0%float, ((1 - K * obs xs 0) * P)%float)
  | S t' =>
      let '(h, P0) := filter_at t' in
      let P := (P0 + Q)%float in
      let e := (obs ys t - h * obs xs t)%float in
      let K := gain_of P (obs xs t) in
      ((h + K * e)%float, ((1 - K * obs xs t) * P)%float)
  end.

Definition estimate (t : nat) : float := fst (filter_at t).
Definition variance (t : nat) : float := snd (filter_at t).

Definition prior (t : nat) : float :=
  match t with
  | O => 1%float
  | S t' => (variance t' + Q)%float
  end.

Definition gain (t : nat) : float := gain_of (prior t) (obs xs t).

End Recursion.

End Power.

End Kalman.

(** ** [features.py]: the static (Huber) hedge ratio *)

Module Huber.

Section Regressor.
(** [HuberRegressor().fit(X, y)] belongs to scikit-learn, not to this
    repository: it is a parameter here, returning the fitted [coef_] or the
    exception the library raises. *)
Variable fit : list (list float) -> list float -> result (list float).

(** [x.values.reshape(-1, 1)]. *)
Definition reshape_column (v : list float) : list (list float) :=
  map (fun a => [a]) v.

(** [huber_hedge_ratio(y, x)] (lines 20-22). *)
Definition huber_hedge_ratio (y x : Series) : result float :=
  coef_ <- fit (reshape_column (values x)) (values y) ;;
  getitem coef_ 0.

End Regressor.

(** The error the specification names for too few observations. *)
Definition InsufficientDataError : exn := OtherError "InsufficientDataError".

End Huber.

(** ** [features.py]: the alert engine *)

Module AlertEngine.

(** [check(z, threshold)] (lines 63-66). *)
Definition check (z : Series) (threshold : float) : result bool :=
  if (length (dropna z) =? 0)%nat then Ok false
  else v <- iloc_last z ;; Ok (threshold <? abs v)%float.

(** [check_spread(spread, threshold)] (lines 68-72). *)
Definition check_spread (spread : Series) (threshold : float) : result bool :=
  if (length (dropna spread) =? 0)%nat then Ok false
  else v <- iloc_last spread ;; Ok (threshold <? abs v)%float.

(** [check_correlation_drop(corr, threshold)] (lines 74-78). *)
Definition check_correlation_drop (corr : Series) (threshold : float)
  : result bool :=
  if (length (dropna corr) =? 0)%nat then Ok false
  else v <- iloc_last corr ;; Ok (v <? threshold)%float.

(** A triggered alert: the tuple [(name, observed value, threshold)]. *)
Record alert : Type := mk_alert {
  alert_name : string;
  alert_value : float;
  alert_threshold : float
}.

(** One optional block of [check_all]: run only when both the series and its
    threshold are given (not [None]); a triggered check appends one alert. *)
Definition optional_check (name : string)
  (chk : Series -> float -> result bool)
  (s : option Series) (thresh : option float) (alerts : list alert)
  : result (list alert) :=
  match s, thresh with
  | Some s, Some th =>
      hit <- chk s th ;;
      if hit : bool then v <- iloc_last s ;; Ok (alerts ++ [mk_alert name v th])
      else Ok alerts
  | _, _ => Ok alerts
  end.

(** [check_all(z, z_thresh, spread, spread_thresh, corr, corr_thresh)]
    (lines 80-95). *)
Definition check_all (z : Series) (z_thresh : float)
  (spread : option Series) (spread_thresh : option float)
  (corr : option Series) (corr_thresh : option float) : result (list alert) :=
  let alerts := [] in
  hit <- check z z_thresh ;;
  alerts <- (if hit : bool
             then v <- iloc_last z ;; Ok (alerts ++ [mk_alert "Z-Score" v z_thresh])
             else Ok alerts) ;;
  alerts <- optional_check "Spread Width" check_spread spread spread_thresh alerts ;;
  optional_check "Correlation Drop" check_correlation_drop corr corr_thresh alerts.

(** The specification's "most recent defined value" of a metric. *)
Definition latest_defined (s : Series) : result float := iloc_last (dropna s).

Definition all_missing (s : Series) : Prop := Forall (fun p => is_nan (snd p) = true) s.

Definition names (l : list alert) : list string := map alert_name l.

End AlertEngine.

(** ** [mean_reversion_backtest.py] *)

Module Backtest.

(** The loop state of [mean_reversion_backtest]. *)
Record state : Type := mk_state {
  position : Z;
  pnl : float;
  equity_curve : list float;
  timestamps : list Z
}.

Definition init : state :=
  {| position := 0; pnl := 0%float; equity_curve := []; timestamps := [] |}.

(** The entry rules (lines 19-22), then the exit rule (lines 25-26). *)
Definition entry_rule (entry_z prev_z : float) (position : Z) : Z :=
  if (entry_z <? prev_z)%float then (-1)%Z
  else if (prev_z <? - entry_z)%float then 1%Z
  else position.

Definition exit_rule (exit_z prev_z : float) (position : Z) : Z :=
  if (abs prev_z <? exit_z)%float then 0%Z else position.

(** One pass of the body of [for i in range(1, len(z))] (lines 15-30). *)
Definition backtest_step (z : Series) (entry_z exit_z : float) (st : state)
  (i : nat) : result state :=
  prev_z <- iloc z (i - 1) ;;
  curr_z <- iloc z i ;;
  let position := entry_rule entry_z prev_z (position st) in
  let position := exit_rule exit_z prev_z position in
  let pnl := (pnl st + float_of_int position * (curr_z - prev_z))%float in
  ts <- index_at z i ;;
  Ok {| position := position; pnl := pnl;
        equity_curve := equity_curve st ++ [pnl];
        timestamps := timestamps st ++ [ts] |}.

(** The state after steps [1 .. k] over a series without missing values. *)
Definition backtest_run (z : Series) (entry_z exit_z : float) (k : nat)
  : result state :=
  for_each (backtest_step z entry_z exit_z) (range 1 (S k)) init.

(** [mean_reversion_backtest(z, entry_z, exit_z)] (lines 3-32); the defaults
    are [entry_z = 2.0] and [exit_z = 0.1]. *)
Definition mean_reversion_backtest (z : Series) (entry_z exit_z : float)
  : result (float * Series) :=
  let z := dropna z in
  if (length z <? 5)%nat then Ok (0%float, [])
  else
    st <- for_each (backtest_step z entry_z exit_z) (range 1 (length z)) init ;;
    Ok (pnl st, mk_series (equity_curve st) (timestamps st)).

End Backtest.

(** ** Invariants and auxiliary predicates *)

(** The positions the backtest can hold. *)
Definition in_range (p : Z) : Prop := (p = -1 \/ p = 0 \/ p = 1)%Z.

(** What holds of the backtest state once [k] steps are done. *)
Record run_inv (z : Series) (entry_z exit_z : float) (k : nat)
  (st : Backtest.state) : Prop := {
  inv_position : in_range (Backtest.position st);
  inv_curve_length : length (Backtest.equity_curve st) = k;
  inv_timestamps : Backtest.timestamps st = firstn k (tl (index z));
  inv_curve : forall j, (1 <= j <= k)%nat ->
      exists stj, Backtest.backtest_run z entry_z exit_z j = Ok stj /\
                  nth_error (Backtest.equity_curve st) (j - 1)
                  = Some (Backtest.pnl stj)
}.

(** The array [hr] after [k] passes of the Kalman loop: the first [k]
    estimates, then the zeros of [np.zeros(n)]. *)
Definition hr_after (pow2 : float -> float) (y x : Series) (Q R : float)
  (k : nat) : list float :=
  map (Kalman.estimate pow2 (values y) (values x) Q R) (seq 0 k)
  ++ repeat 0%float (length y - k).

(** What [check_all] needs of a check: it returns, a hit has a last row to
    report, and an all-missing series is never a hit. *)
Definition guarded (chk : Series -> float -> result bool) : Prop :=
  forall s th, exists b,
    chk s th = Ok b /\
    (b = true -> exists v, iloc_last s = Ok v) /\
    (AlertEngine.all_missing s -> b = false).

(** The classes of a binary64 value, on its specification-level image. *)
Definition sf_nan (s : spec_float) : bool :=
  match s with S754_nan => true | _ => false end.

Definition sf_zero (s : spec_float) : bool :=
  match s with S754_zero _ => true | _ => false end.

Definition sf_finite (s : spec_float) : bool :=
  match s with S754_zero _ | S754_finite _ _ _ => true | _ => false end.

Definition sf_infinite (s : spec_float) : bool :=
  match s with S754_infinity _ => true | _ => false end.

(** ** Sample inputs *)

(** The z-scores of the worked example, under arbitrary index labels. *)
Definition example_z (t0 t1 t2 t3 t4 : Z) : Series :=
  [(t0, 0); (t1, 2.5); (t2, 2.5); (t3, 0.05); (t4, -2.5)]%float.

(** A series with six rows of which four are defined. *)
Definition gappy_z : Series :=
  [(10%Z, 0.5%float); (11%Z, nan); (12%Z, 3%float); (13%Z, nan);
   (14%Z, (-3)%float); (15%Z, 0.05%float)].

(** A single observation. *)
Definition one_point : Series := [(0%Z, 1%float)].

(** Three observations of a pair with [y = 2 x]. *)
Definition ramp_y : Series := [(0%Z, 2%float); (1%Z, 4%float); (2%Z, 6%float)].
Definition ramp_x : Series := [(0%Z, 1%float); (1%Z, 2%float); (2%Z, 3%float)].

(** A z-score series whose last row is missing and whose latest defined
    value, 3, exceeds the threshold 2. *)
Definition stale_z : Series := [(0%Z, 3%float); (1%Z, nan)].

(** A z-score series with leading missing values and a last value of -3. *)
Definition fresh_z : Series := [(0%Z, nan); (1%Z, 1%float); (2%Z, (-3)%float)].

(** A z-score series in which no value is defined yet. *)
Definition blank_z : Series := [(0%Z, nan); (1%Z, nan)].

(** Two observations of [y] against an all-zero [x]; [holed_y] has a missing
    second value. *)
Definition flat_x : Series := [(0%Z, 0%float); (1%Z, 0%float)].
Definition flat_y : Series := [(0%Z, 1%float); (1%Z, 1%float)].
Definition holed_y : Series := [(0%Z, 1%float); (1%Z, nan)].

(** A power that rounds the square correctly: the product [v * v]. *)
Definition rounded_square (v : float) : float := (v * v)%float.


(** ** [features.py]: spread, z-score and cross-correlation *)

Module Features.

Section Pandas.
(** The rolling kernels [s.rolling(window).mean()] and [.std()], the Pearson
    correlation [x.corr(other)] and the shift [y.shift(lag)] belong to
    pandas, not to this repository: they are parameters here. *)
Variables rolling_mean rolling_std : Series -> Z -> Series.
Variable corr : Series -> Series -> float.
Variable shift : Series -> Z -> Series.

(** [c * s] for a scalar [c]: row by row, on the index of [s]. *)
Definition series_scale (c : float) (s : Series) : Series :=
  map (fun p => (fst p, (c * snd p)%float)) s.

(** [a - b] and [a / b] for two series.  pandas aligns the operands on their
    labels, filling with [nan] the rows that one operand alone has; for two
    series with the same index, the case the callers provide, the alignment
    changes nothing and the operation goes row by row.  This definition is
    that case only: every statement about it assumes a common index. *)
Definition series_op (f : float -> float -> float) (a b : Series) : Series :=
  map (fun ab => (fst (fst ab), f (snd (fst ab)) (snd (snd ab)))) (combine a b).

(** [spread_and_zscore(y, x, hr, window)] (lines 12-17). *)
Definition spread_and_zscore (y x : Series) (hr : float) (window : Z)
  : Series * Series :=
  let spread := series_op PrimFloat.sub y (series_scale hr x) in
  let mean := rolling_mean spread window in
  let std := rolling_std spread window in
  let z := series_op PrimFloat.div (series_op PrimFloat.sub spread mean) std in
  (spread, z).

(** [range(a, b)] over Python integers. *)
Definition py_range (a b : Z) : list Z :=
  map (fun i => (a + Z.of_nat i)%Z) (seq 0 (Z.to_nat (b - a))).

(** [cross_corr(x, y, max_lag)] (lines 97-100); the default is
    [max_lag = 20]. *)
Definition cross_corr (x y : Series) (max_lag : Z) : list Z * list float :=
  let lags := py_range (- max_lag) (max_lag + 1) in
  let corr := map (fun lag => corr x (shift y lag)) lags in
  (lags, corr).

End Pandas.

End Features.

(** ** Rolling statistics, in the words of the specification *)

Module Rolling.

(** The rolling kernels are compiled pandas code, absent from the
    repository.  The definitions below follow the words of the
    specification: a statistic of the trailing window of [window]
    observations, undefined (missing) at the positions that have fewer than
    [window] observations behind them.  The mean and the sample standard
    deviation are computed in binary64 by their textbook formulas; pandas
    reaches the same statistics by a running update with a rounding of its
    own.  They serve the examples: the theorems take the kernels as
    parameters. *)

Definition total (l : list float) : float := fold_left PrimFloat.add l 0%float.

Definition mean_of (l : list float) : float :=
  (total l / float_of_int (Z.of_nat (length l)))%float.

Definition std_of (l : list float) : float :=
  let m := mean_of l in
  PrimFloat.sqrt
    (total (map (fun v => ((v - m) * (v - m))%float) l)
     / float_of_int (Z.of_nat (length l) - 1))%float.

(** The [w] observations that end at position [i]. *)
Definition window_at (vs : list float) (w i : nat) : list float :=
  firstn w (skipn (S i - w) vs).

Definition rolling (stat : list float -> float) (s : Series) (window : Z)
  : Series :=
  let w := Z.to_nat window in
  map (fun i => (nth i (index s) 0%Z,
                 if (S i <? w)%nat then nan
                 else stat (window_at (values s) w i)))
    (seq 0 (length s)).

Definition mean (s : Series) (window : Z) : Series := rolling mean_of s window.
Definition std (s : Series) (window : Z) : Series := rolling std_of s window.

End Rolling.

(** ** [resampler_filter.py]: the liquidity filter *)

Module Resampler.

(** A row of the OHLCV frame that [resample_ticks] builds: the index label
    and the columns [open], [high], [low], [close], [volume]. *)
Record bar : Type := mk_bar {
  bar_time : Z;
  open : float;
  high : float;
  low : float;
  close : float;
  volume : float
}.

(** [liquidity_filter(bars, min_volume)] (lines 12-13): the rows selected by
    the mask [bars["volume"] >= min_volume]. *)
Definition liquidity_filter (bars : list bar) (min_volume : float) : list bar :=
  filter (fun b => (min_volume <=? volume b)%float) bars.

End Resampler.

(** ** [duckdb_storage.py]: the tick store *)

Module TickStore.

(** A row of the table [ticks (timestamp TIMESTAMP, symbol VARCHAR,
    price DOUBLE, qty DOUBLE)] that [__init__] creates (lines 7-13); a
    timestamp is the instant it denotes. *)
Record tick : Type := mk_tick {
  timestamp : Z;
  symbol : string;
  price : float;
  qty : float
}.

(** The state behind [self.con]: the rows of [ticks], in insertion order. *)
Definition table : Type := list tick.

(** The values a tick dictionary holds: a [datetime], a [str] or a
    [float]. *)
Inductive value : Type :=
| Datetime (t : Z)
| Text (s : string)
| Number (v : float).

(** A tick as [insert_tick] receives it: a [dict], its items in key order. *)
Definition tick_dict : Type := list (string * value).

(** The dict literal of both callers (lines 33-38, and lines 17-22 of
    [binance_websocket.py]): the keys in the order of the table's columns. *)
Definition as_dict (t : tick) : tick_dict :=
  [("timestamp"%string, Datetime (timestamp t));
   ("symbol"%string, Text (symbol t));
   ("price"%string, Number (price t));
   ("qty"%string, Number (qty t))].

(** [ORDER BY timestamp].  The engine promises no order among rows of equal
    timestamp; the insertion sort below makes one choice (it keeps such rows
    in their order), and the theorems use only that the result is a
    permutation in time order. *)
Fixpoint place (t : tick) (rows : list tick) : list tick :=
  match rows with
  | [] => [t]
  | u :: rows' =>
      if (timestamp t <=? timestamp u)%Z then t :: rows
      else u :: place t rows'
  end.

Definition order_by_timestamp (rows : list tick) : list tick :=
  fold_right place [] rows.

(** [fetch_ticks(symbol)] (lines 20-24):
    [SELECT * FROM ticks WHERE symbol=? ORDER BY timestamp]. *)
Definition fetch_ticks (con : table) (sym : string) : list tick :=
  order_by_timestamp (filter (fun t => String.eqb (symbol t) sym) con).

Section Engine.
(** [INSERT INTO ticks SELECT * FROM df] binds the columns of the one-row
    frame [pd.DataFrame([tick])] to the columns of the table by position, not
    by name.  A frame of a datetime, a string and two floats, in this order,
    is stored as it is.  What the engine does with any other frame (a cast of
    a value to its column's type, or an exception for a value or a number of
    columns that does not fit) is the engine's own: a parameter here. *)
Variable engine_bind : list value -> result tick.

Definition bind_row (vs : list value) : result tick :=
  match vs with
  | [Datetime t; Text s; Number p; Number q] => Ok (mk_tick t s p q)
  | _ => engine_bind vs
  end.

(** [insert_tick(tick)] (lines 16-18): the table it leaves behind and how it
    ends. *)
Definition insert_tick (con : table) (tick : tick_dict) : table * result unit :=
  match bind_row (map snd tick) with
  | Ok row => (con ++ [row], Ok tt)
  | Raise e => (con, Raise e)
  end.

Section Upload.
(** The cells of an uploaded frame and their conversions
    [pd.to_datetime(c)], [str(c).upper()] and [float(c)] belong to pandas and
    to Python: they are parameters here. *)
Variable cell : Type.
Variable to_datetime : cell -> result Z.
Variable upper_str : cell -> string.
Variable to_float : cell -> result float.

(** A row of the uploaded frame: the cells of the columns the upload reads,
    [None] for a column the frame does not have. *)
Record ohlc_row : Type := mk_row {
  row_timestamp : option cell;
  row_symbol : option cell;
  row_close : option cell;
  row_volume : option cell
}.

Definition KeyError : exn := OtherError "KeyError".

(** [row[column]]. *)
Definition row_get (c : option cell) : result cell :=
  match c with
  | Some v => Ok v
  | None => Raise KeyError
  end.

(** The values of the dictionary built for one row (lines 33-38), in the
    order Python evaluates them; [row.get("volume", 0.0)] falls back to
    [0.0].  The dictionary is [as_dict] of these values. *)
Definition tick_of_row (row : ohlc_row) : result tick :=
  c <- row_get (row_timestamp row) ;;
  ts <- to_datetime c ;;
  c <- row_get (row_symbol row) ;;
  let sym := upper_str c in
  c <- row_get (row_close row) ;;
  p <- to_float c ;;
  q <- match row_volume row with
       | Some v => to_float v
       | None => Ok 0%float
       end ;;
  Ok {| timestamp := ts; symbol := sym; price := p; qty := q |}.

(** [insert_ohlc_bars(df)] (lines 26-39): the table it leaves behind and how
    it ends; each [insert_tick] is committed before the next row is read. *)
Fixpoint insert_ohlc_bars (con : table) (df : list ohlc_row)
  : table * result unit :=
  match df with
  | [] => (con, Ok tt)
  | row :: df' =>
      match tick_of_row row with
      | Ok t =>
          match insert_tick con (as_dict t) with
          | (con', Ok _) => insert_ohlc_bars con' df'
          | (con', Raise e) => (con', Raise e)
          end
      | Raise e => (con, Raise e)
      end
  end.

End Upload.

End Engine.

End TickStore.

(** ** [app.py]: trading signals *)

Module App.

Inductive signal : Type := LONG | SHORT | NEUTRAL.

(** The banner of the spread tab (lines 475-481), on [current_z = z.iloc[-1]]. *)
Definition trading_signal (current_z z_thresh : float) : signal :=
  if (current_z <? - z_thresh)%float then LONG
  else if (z_thresh <? current_z)%float then SHORT
  else NEUTRAL.

(** [long_signals = z[z < -z_thresh]] and [short_signals = z[z > z_thresh]]
    (lines 501-502). *)
Definition long_signals (z : Series) (z_thresh : float) : Series :=
  filter (fun p => (snd p <? - z_thresh)%float) z.

Definition short_signals (z : Series) (z_thresh : float) : Series :=
  filter (fun p => (z_thresh <? snd p)%float) z.

End App.

(** ** Auxiliary notions for the further properties *)

(** The alert one block of [check_all] reports: none unless the series and
    the threshold are given, the check triggers and the last row is read. *)
Definition alert_for (name : string) (chk : Series -> float -> result bool)
  (s : option Series) (th : option float) : list AlertEngine.alert :=
  match s, th with
  | Some s', Some t =>
      match chk s' t, iloc_last s' with
      | Ok true, Ok v => [AlertEngine.mk_alert name v t]
      | _, _ => []
      end
  | _, _ => []
  end.

(** The order of the binary64 values that are not [nan], as a lexicographic
    order on integer triples: the class (-2 for -inf, -1 for negative, 0 for
    the zeros, 1 for positive, 2 for +inf), then exponent and mantissa,
    negated for negative values. *)
Definition sf_rank (s : spec_float) : option (Z * Z * Z) :=
  match s with
  | S754_nan => None
  | S754_infinity true => Some (-2, 0, 0)%Z
  | S754_infinity false => Some (2, 0, 0)%Z
  | S754_zero _ => Some (0, 0, 0)%Z
  | S754_finite true m e => Some (-1, - e, - Zpos m)%Z
  | S754_finite false m e => Some (1, e, Zpos m)%Z
  end.

Definition frank (v : float) : option (Z * Z * Z) := sf_rank (Prim2SF v).

Definition lt3 (a b : Z * Z * Z) : Prop :=
  let '(c1, e1, m1) := a in
  let '(c2, e2, m2) := b in
  (c1 < c2 \/ (c1 = c2 /\ (e1 < e2 \/ (e1 = e2 /\ m1 < m2))))%Z.

Definition le3 (a b : Z * Z * Z) : Prop :=
  let '(c1, e1, m1) := a in
  let '(c2, e2, m2) := b in
  (c1 < c2 \/ (c1 = c2 /\ (e1 < e2 \/ (e1 = e2 /\ m1 <= m2))))%Z.

Definition neg3 (r : Z * Z * Z) : Z * Z * Z :=
  let '(c, e, m) := r in (- c, - e, - m)%Z.

Definition flt (a b : float) : Prop :=
  match frank a, frank b with
  | Some ra, Some rb => lt3 ra rb
  | _, _ => False
  end.

Definition fle (a b : float) : Prop :=
  match frank a, frank b with
  | Some ra, Some rb => le3 ra rb
  | _, _ => False
  end.

(** ** Further sample inputs *)

(** Six z-scores that stay inside the entry band; one is missing. *)
Definition calm_z : Series :=
  [(0%Z, 0.5%float); (1%Z, (-1)%float); (2%Z, 1.5%float); (3%Z, nan);
   (4%Z, (-0.5)%float); (5%Z, 1%float)].

(** Kernels for the examples: a rolling mean that is 1 and a rolling
    deviation that is 0 on every row. *)
Definition ones_kernel (s : Series) (window : Z) : Series :=
  map (fun p => (fst p, 1%float)) s.
Definition zeros_kernel (s : Series) (window : Z) : Series :=
  map (fun p => (fst p, 0%float)) s.

(** Two rows of [y] against an all-zero [x]: with the kernels above, the
    first row has [spread = mean] and the second has not. *)
Definition step_y : Series := [(0%Z, 1%float); (1%Z, 2%float)].

(** Two rows whose values differ by so little that the squares of their
    deviations from the mean underflow to zero. *)
Definition tiny_y : Series := [(0%Z, 0%float); (1%Z, 1e-200%float)].

(** Three bars with volumes 5, 0 and 20. *)
Definition sample_bars : list Resampler.bar :=
  [Resampler.mk_bar 0 1 2 1 2 5; Resampler.mk_bar 60 2 2 1 1 0;
   Resampler.mk_bar 120 1 3 1 3 20].

(** Conversions for the examples, on cells that are strings: every cell but
    ["bad"] is read as the timestamp 0 or the number 1, and a symbol is kept
    as it is. *)
Definition demo_datetime (c : string) : result Z :=
  if String.eqb c "bad" then Raise (OtherError "ValueError") else Ok 0%Z.
Definition demo_float (c : string) : result float :=
  if String.eqb c "bad" then Raise (OtherError "ValueError") else Ok 1%float.
Definition demo_upper (c : string) : string := c.

Definition good_row : TickStore.ohlc_row string :=
  TickStore.mk_row string (Some "t0"%string) (Some "BTCUSDT"%string)
    (Some "1"%string) None.
Definition bad_row : TickStore.ohlc_row string :=
  TickStore.mk_row string (Some "t1"%string) (Some "BTCUSDT"%string)
    (Some "bad"%string) None.
Definition good_tick : TickStore.tick := TickStore.mk_tick 0 "BTCUSDT" 1 0.

(** An engine that refuses every frame that does not fit the table. *)
Definition strict_engine (vs : list TickStore.value) : result TickStore.tick :=
  Raise (OtherError "ConversionException").


(** * Properties *)

(** ** The error monad, loops and indexing *)

Lemma for_each_app {S X : Type} (body : S -> X -> result S) (xs ys : list X) :
  forall st,
    for_each body (xs ++ ys) st = (st' <- for_each body xs st ;; for_each body ys st').
Proof.
  induction xs as [|x xs IH]; intros st; simpl.
  - reflexivity.
  - destruct (body st x) as [st1|e]; simpl; [apply IH | reflexivity].
Qed.

Lemma range_snoc (a b : nat) : (a <= b)%nat -> range a (S b) = range a b ++ [b].
Proof.
  intros H. unfold range.
  replace (S b - a)%nat with (S (b - a)) by lia.
  rewrite seq_S. do 2 f_equal. lia.
Qed.

Lemma for_each_snoc {S X : Type} (body : S -> X -> result S) (xs : list X) (x : X) :
  forall st,
    for_each body (xs ++ [x]) st = (st' <- for_each body xs st ;; body st' x).
Proof.
  intros st. rewrite for_each_app.
  destruct (for_each body xs st) as [st'|e]; simpl; [|reflexivity].
  destruct (body st' x); reflexivity.
Qed.

Lemma getitem_ok {A : Type} (l : list A) (i : nat) (d : A) :
  (i < length l)%nat -> getitem l i = Ok (nth i l d).
Proof.
  intros H. unfold getitem.
  rewrite (nth_error_nth' l d H). reflexivity.
Qed.

Lemma values_length (s : Series) : length (values s) = length s.
Proof. apply length_map. Qed.

Lemma index_length (s : Series) : length (index s) = length s.
Proof. apply length_map. Qed.

Lemma iloc_ok (s : Series) (i : nat) :
  (i < length s)%nat -> iloc s i = Ok (nth i (values s) 0%float).
Proof. intros H. apply getitem_ok. now rewrite values_length. Qed.

Lemma index_at_ok (s : Series) (i : nat) :
  (i < length s)%nat -> index_at s i = Ok (nth i (index s) 0%Z).
Proof. intros H. apply getitem_ok. now rewrite index_length. Qed.

Lemma iloc_last_ok (s : Series) :
  s <> [] -> iloc_last s = Ok (last (values s) 0%float).
Proof.
  intros H. destruct (exists_last H) as (s' & p & ->).
  unfold iloc_last, iloc, getitem, values.
  rewrite length_app, map_app. simpl.
  rewrite last_last.
  replace (length s' + 1)%nat with (S (length s')) by lia.
  rewrite nth_error_app2; rewrite length_map; [|lia].
  now rewrite Nat.sub_diag.
Qed.

Lemma dropna_idempotent (s : Series) : dropna (dropna s) = dropna s.
Proof.
  unfold dropna. induction s as [|p s IH]; simpl; [reflexivity|].
  destruct (notna (snd p)) eqn:E; simpl; [rewrite E, IH|]; auto.
Qed.

Lemma firstn_snoc {A : Type} (l : list A) (k : nat) (d : A) :
  (k < length l)%nat -> firstn (S k) l = firstn k l ++ [nth k l d].
Proof.
  revert k. induction l as [|a l IH]; intros k H; simpl in H; [lia|].
  destruct k as [|k]; simpl; [reflexivity|].
  f_equal. apply IH. lia.
Qed.

Lemma map_fst_combine {A B : Type} (l : list A) (l' : list B) :
  length l = length l' -> map fst (combine l l') = l.
Proof.
  revert l'. induction l as [|a l IH]; intros [|b l'] H; simpl in *;
    try discriminate; [reflexivity|].
  f_equal. apply IH. lia.
Qed.

Lemma map_snd_combine {A B : Type} (l : list A) (l' : list B) :
  length l = length l' -> map snd (combine l l') = l'.
Proof.
  revert l'. induction l as [|a l IH]; intros [|b l'] H; simpl in *;
    try discriminate; [reflexivity|].
  f_equal. apply IH. lia.
Qed.

(** ** The backtest loop *)

Section BacktestLoop.
Import Backtest.
Variables (z : Series) (entry_z exit_z : float).

Lemma entry_rule_range (prev : float) (p : Z) :
  in_range p -> in_range (entry_rule entry_z prev p).
Proof.
  unfold entry_rule, in_range. intros H.
  destruct (entry_z <? prev)%float; [lia|].
  destruct (prev <? - entry_z)%float; lia.
Qed.

Lemma exit_rule_range (prev : float) (p : Z) :
  in_range p -> in_range (exit_rule exit_z prev p).
Proof.
  unfold exit_rule, in_range. intros H.
  destruct (abs prev <? exit_z)%float; lia.
Qed.

Lemma backtest_step_ok (st : state) (i : nat) :
  (1 <= i < length z)%nat ->
  let prev := nth (i - 1) (values z) 0%float in
  let curr := nth i (values z) 0%float in
  let p := exit_rule exit_z prev (entry_rule entry_z prev (position st)) in
  let v := (pnl st + float_of_int p * (curr - prev))%float in
  backtest_step z entry_z exit_z st i =
  Ok {| position := p; pnl := v;
        equity_curve := equity_curve st ++ [v];
        timestamps := timestamps st ++ [nth i (index z) 0%Z] |}.
Proof.
  intros H. unfold backtest_step.
  rewrite (iloc_ok z (i - 1)) by lia. simpl.
  rewrite (iloc_ok z i) by lia. simpl.
  rewrite (index_at_ok z i) by lia. reflexivity.
Qed.

Lemma backtest_run_S (k : nat) :
  backtest_run z entry_z exit_z (S k) =
  (st <- backtest_run z entry_z exit_z k ;; backtest_step z entry_z exit_z st (S k)).
Proof.
  unfold backtest_run. rewrite (range_snoc 1 (S k)) by lia.
  apply for_each_snoc.
Qed.

Lemma backtest_run_inv (k : nat) :
  (k < length z)%nat ->
  exists st, backtest_run z entry_z exit_z k = Ok st /\
             run_inv z entry_z exit_z k st.
Proof.
  induction k as [|k IH]; intros Hk.
  - exists init. split; [reflexivity|].
    constructor; simpl; try reflexivity; [unfold in_range; lia | intros j Hj; lia].
  - destruct IH as (st & Hrun & [Hp Hl Ht Hc]); [lia|].
    rewrite backtest_run_S, Hrun. simpl.
    rewrite backtest_step_ok by lia.
    eexists. split; [reflexivity|].
    constructor; cbn [position pnl equity_curve timestamps].
    + apply exit_rule_range, entry_rule_range, Hp.
    + rewrite length_app. simpl. lia.
    + rewrite Ht.
      rewrite (firstn_snoc (tl (index z)) k 0%Z).
      * f_equal. f_equal. destruct (index z); [destruct k|]; reflexivity.
      * pose proof (index_length z) as Hi.
        destruct (index z); simpl in *; lia.
    + intros j Hj.
      destruct (Nat.eq_dec j (S k)) as [->|Hne].
      * eexists. split.
        -- rewrite backtest_run_S, Hrun. simpl.
           rewrite backtest_step_ok by lia. reflexivity.
        -- replace (S k - 1)%nat with k by lia.
           rewrite nth_error_app2 by lia.
           rewrite Hl, Nat.sub_diag. reflexivity.
      * destruct (Hc j) as (stj & Hj1 & Hj2); [lia|].
        exists stj. split; [exact Hj1|].
        rewrite nth_error_app1 by lia. exact Hj2.
Qed.

End BacktestLoop.

(** ** The backtest: claims *)

(** C2. In every step [i >= 1] of the backtest state machine, with [prev] the
    value at position [i-1] of the series after missing values are dropped:
    the position becomes -1 if [prev > entry_z], otherwise +1 if
    [prev < -entry_z], otherwise it carries over; and it becomes 0 if
    [|prev| < exit_z], whatever the entry rules decided in the same step.
    The position is always one of -1, 0, +1, and it is 0 initially. *)
Theorem backtest_position_rule (z : Series) (entry_z exit_z : float) :
  let zs := dropna z in
  (Backtest.backtest_run zs entry_z exit_z 0 = Ok Backtest.init /\
   Backtest.position Backtest.init = 0%Z) /\
  forall i, (1 <= i < length zs)%nat ->
    exists st_prev st prev,
      Backtest.backtest_run zs entry_z exit_z (i - 1) = Ok st_prev /\
      Backtest.backtest_run zs entry_z exit_z i = Ok st /\
      iloc zs (i - 1) = Ok prev /\
      Backtest.position st =
        (if (abs prev <? exit_z)%float then 0
         else if (entry_z <? prev)%float then -1
         else if (prev <? - entry_z)%float then 1
         else Backtest.position st_prev)%Z /\
      (Backtest.position st = -1 \/ Backtest.position st = 0 \/
       Backtest.position st = 1)%Z.
Proof.
  intros zs. split; [split; reflexivity|].
  intros i Hi.
  destruct (backtest_run_inv zs entry_z exit_z (i - 1)) as (st0 & Hrun0 & Hinv0);
    [lia|].
  destruct i as [|k]; [lia|].
  replace (S k - 1)%nat with k in * by lia.
  exists st0. eexists. exists (nth k (values zs) 0%float).
  split; [exact Hrun0|].
  split.
  { rewrite backtest_run_S, Hrun0. simpl.
    rewrite backtest_step_ok by lia. reflexivity. }
  split; [apply iloc_ok; lia|].
  replace (S k - 1)%nat with k in * by lia.
  cbn [Backtest.position].
  split.
  - unfold Backtest.exit_rule, Backtest.entry_rule. reflexivity.
  - apply exit_rule_range, entry_rule_range, (inv_position _ _ _ _ _ Hinv0).
Qed.

Lemma backtest_position_rule_witness :
  exists st_prev st,
    Backtest.backtest_run (dropna gappy_z) 2 0.1 2 = Ok st_prev /\
    Backtest.backtest_run (dropna gappy_z) 2 0.1 3 = Ok st /\
    Backtest.position st_prev = (-1)%Z /\ Backtest.position st = 1%Z.
Proof.
  destruct (backtest_position_rule gappy_z 2 0.1) as [_ H].
  destruct (H 3%nat) as (st_prev & st & prev & H1 & H2 & H3 & H4 & H5).
  - vm_compute. lia.
  - exists st_prev, st. split; [exact H1|]. split; [exact H2|].
    split.
    + vm_compute in H1. injection H1 as <-. reflexivity.
    + vm_compute in H3. injection H3 as <-. vm_compute in H4. exact H4.
Defined.

(** C3. In every backtest step [i >= 1], once the position of the step is
    determined, PnL accrues as [pnl += position * (z[i] - z[i-1])]; and on the
    z-scores [0, 2.5, 2.5, 0.05, -2.5] with [entry_z = 2.0] and
    [exit_z = 0.1] the returned total PnL is the binary64 number 2.45. *)
Theorem backtest_pnl_accrual :
  (forall (z : Series) (entry_z exit_z : float) (i : nat),
      let zs := dropna z in
      (1 <= i < length zs)%nat ->
      exists st_prev st prev curr,
        Backtest.backtest_run zs entry_z exit_z (i - 1) = Ok st_prev /\
        Backtest.backtest_run zs entry_z exit_z i = Ok st /\
        iloc zs (i - 1) = Ok prev /\ iloc zs i = Ok curr /\
        Backtest.pnl st =
          (Backtest.pnl st_prev
           + float_of_int (Backtest.position st) * (curr - prev))%float) /\
  (forall t0 t1 t2 t3 t4 : Z,
      exists curve,
        Backtest.mean_reversion_backtest (example_z t0 t1 t2 t3 t4) 2.0 0.1
        = Ok (2.45%float, curve)).
Proof.
  split.
  - intros z entry_z exit_z i zs Hi.
    destruct (backtest_run_inv zs entry_z exit_z (i - 1)) as (st0 & Hrun0 & _);
      [lia|].
    destruct i as [|k]; [lia|].
    replace (S k - 1)%nat with k in * by lia.
    exists st0. eexists.
    exists (nth k (values zs) 0%float), (nth (S k) (values zs) 0%float).
    split; [exact Hrun0|].
    split.
    { rewrite backtest_run_S, Hrun0. simpl.
      rewrite backtest_step_ok by lia. reflexivity. }
    split; [apply iloc_ok; lia|].
    split; [apply iloc_ok; lia|].
    replace (S k - 1)%nat with k by lia. reflexivity.
  - intros t0 t1 t2 t3 t4. eexists. vm_compute. reflexivity.
Qed.

(** C6. For every z-score sequence with fewer than 5 defined observations and
    every choice of thresholds the backtest returns [(0.0, empty series)]
    without raising; missing values are dropped before the length check and
    the simulation, so the result is that of the defined rows alone. *)
Theorem backtest_too_short (z : Series) (entry_z exit_z : float) :
  (length (dropna z) < 5)%nat ->
  Backtest.mean_reversion_backtest z entry_z exit_z = Ok (0%float, []) /\
  Backtest.mean_reversion_backtest z entry_z exit_z
  = Backtest.mean_reversion_backtest (dropna z) entry_z exit_z.
Proof.
  intros H. unfold Backtest.mean_reversion_backtest.
  rewrite dropna_idempotent.
  apply Nat.ltb_lt in H. rewrite H. split; reflexivity.
Qed.

Lemma backtest_too_short_witness :
  (length (dropna gappy_z) < 5)%nat /\
  Backtest.mean_reversion_backtest gappy_z 2 0.1 = Ok (0%float, []).
Proof.
  assert (H : (length (dropna gappy_z) < 5)%nat) by (vm_compute; lia).
  split; [exact H|].
  exact (proj1 (backtest_too_short gappy_z 2 0.1 H)).
Defined.

(** C10. For every z-score input with [n >= 5] defined observations the
    backtest returns an equity curve of exactly [n-1] entries, indexed by the
    labels of the 2nd through n-th defined observations, whose k-th entry is
    the cumulative PnL after step k and whose last entry is the returned
    total PnL. *)
Theorem backtest_equity_curve (z : Series) (entry_z exit_z : float) :
  let zs := dropna z in
  let n := length zs in
  (5 <= n)%nat ->
  exists total curve,
    Backtest.mean_reversion_backtest z entry_z exit_z = Ok (total, curve) /\
    length curve = (n - 1)%nat /\
    index curve = tl (index zs) /\
    (forall k, (1 <= k <= n - 1)%nat ->
       exists st, Backtest.backtest_run zs entry_z exit_z k = Ok st /\
                  nth_error (values curve) (k - 1) = Some (Backtest.pnl st)) /\
    nth_error (values curve) (n - 2) = Some total.
Proof.
  intros zs n Hn.
  destruct (backtest_run_inv zs entry_z exit_z (n - 1)) as (st & Hrun & [Hp Hl Ht Hc]);
    [fold n; lia|].
  assert (Hlen : length (Backtest.timestamps st) = length (Backtest.equity_curve st)).
  { rewrite Ht, Hl, length_firstn.
    pose proof (index_length zs) as Hi. fold n in Hi.
    destruct (index zs); simpl in *; lia. }
  exists (Backtest.pnl st),
         (mk_series (Backtest.equity_curve st) (Backtest.timestamps st)).
  split.
  { unfold Backtest.mean_reversion_backtest. fold zs. fold n.
    destruct (Nat.ltb_spec n 5) as [Hlt|_]; [lia|].
    unfold Backtest.backtest_run in Hrun.
    replace (S (n - 1)) with n in Hrun by lia.
    rewrite Hrun. reflexivity. }
  unfold mk_series, index, values.
  rewrite (map_fst_combine _ _ Hlen), (map_snd_combine _ _ Hlen).
  split; [rewrite length_combine, Hlen, Hl; lia|].
  split.
  { rewrite Ht. fold (index zs). apply firstn_all2.
    pose proof (index_length zs) as Hi. fold n in Hi.
    destruct (index zs); simpl in *; lia. }
  split; [exact Hc|].
  destruct (Hc (n - 1)%nat) as (st' & Hrun' & Hnth); [lia|].
  rewrite Hrun in Hrun'. injection Hrun' as <-.
  replace (n - 2)%nat with (n - 1 - 1)%nat by lia. exact Hnth.
Qed.

Lemma backtest_equity_curve_witness :
  exists total curve,
    Backtest.mean_reversion_backtest (example_z 0 1 2 3 4) 2 0.1
    = Ok (total, curve) /\
    length curve = 4%nat /\ index curve = [1; 2; 3; 4]%Z /\
    nth_error (values curve) 3 = Some total.
Proof.
  destruct (backtest_equity_curve (example_z 0 1 2 3 4) 2 0.1)
    as (total & curve & H1 & H2 & H3 & _ & H5).
  - vm_compute. lia.
  - exists total, curve. repeat split; assumption.
Defined.

(** ** The adaptive hedge ratio: the loop computes the recursion *)

Lemma setitem_middle {A : Type} (l1 l2 : list A) (a v : A) :
  setitem (l1 ++ a :: l2) (length l1) v = Ok (l1 ++ v :: l2).
Proof.
  induction l1 as [|b l1 IH]; simpl; [reflexivity|].
  now rewrite IH.
Qed.

Lemma getitem_app_last {A : Type} (l1 l2 : list A) (a : A) :
  getitem ((l1 ++ [a]) ++ l2) (length l1) = Ok a.
Proof.
  unfold getitem. rewrite <- app_assoc. simpl.
  rewrite nth_error_app2 by lia. now rewrite Nat.sub_diag.
Qed.

Section KalmanLoop.
Import Kalman.
Variable pow2 : float -> float.
Variables (y x : Series) (Q R : float).
Hypothesis same_length : length y = length x.

Let est := estimate pow2 (values y) (values x) Q R.
Let var := variance pow2 (values y) (values x) Q R.
Let hr_k := hr_after pow2 y x Q R.

Lemma hr_after_0 : hr_k 0 = repeat 0%float (length y).
Proof. unfold hr_k, hr_after; fold est. simpl. now rewrite Nat.sub_0_r. Qed.

Lemma kalman_step_0 :
  (0 < length y)%nat ->
  kalman_step pow2 y x Q R (hr_k 0, 1%float) 0 = Ok (hr_k 1, var 0%nat).
Proof.
  intros Hn. unfold kalman_step. cbv beta iota zeta.
  change (0 <? 0)%nat with false. cbv iota.
  cbn [bind].
  rewrite (iloc_ok y 0) by lia. cbn [bind].
  rewrite (iloc_ok x 0) by lia. cbn [bind].
  cbn [bind].
  unfold hr_k, hr_after; fold est. simpl seq. simpl map. simpl app.
  replace (length y - 0)%nat with (S (length y - 1)) by lia.
  simpl repeat. simpl setitem. cbn [bind].
  reflexivity.
Qed.

Lemma kalman_step_S (t : nat) :
  (S t < length y)%nat ->
  kalman_step pow2 y x Q R (hr_k (S t), var t) (S t)
  = Ok (hr_k (S (S t)), var (S t)).
Proof.
  intros Hn. unfold kalman_step. cbv beta iota zeta.
  change (0 <? S t)%nat with true. cbv iota.
  replace (S t - 1)%nat with t by lia.
  assert (Hget : getitem (hr_k (S t)) t = Ok (est t)).
  { unfold hr_k, hr_after; fold est. rewrite seq_S, map_app. simpl.
    pose proof (getitem_app_last (map est (seq 0 t))
                  (repeat 0%float (length y - S t)) (est t)) as G.
    rewrite length_map, length_seq in G. exact G. }
  rewrite Hget. cbn [bind].
  rewrite (iloc_ok x (S t)) by lia. cbn [bind]. cbn [bind].
  rewrite (iloc_ok y (S t)) by lia. cbn [bind].
  cbn [bind]. cbn [bind].
  assert (Hset : forall v,
             setitem (hr_k (S t)) (S t) v
             = Ok (map est (seq 0 (S t)) ++ v :: repeat 0%float (length y - S (S t)))).
  { intros v. unfold hr_k, hr_after; fold est.
    replace (length y - S t)%nat with (S (length y - S (S t))) by lia.
    simpl repeat.
    pose proof (setitem_middle (map est (seq 0 (S t)))
                  (repeat 0%float (length y - S (S t))) 0%float v) as G.
    rewrite length_map, length_seq in G. exact G. }
  rewrite Hset. cbn [bind].
  unfold hr_k, hr_after; fold est. rewrite (seq_S (S t)), map_app, <- app_assoc. simpl.
  unfold est, var, estimate, variance. simpl filter_at.
  destruct (filter_at pow2 (values y) (values x) Q R t) as [h P0] eqn:E.
  reflexivity.
Qed.

Lemma kalman_run_S (k : nat) :
  kalman_run pow2 y x Q R (S k)
  = (st <- kalman_run pow2 y x Q R k ;; kalman_step pow2 y x Q R st k).
Proof.
  unfold kalman_run. rewrite (range_snoc 0 k) by lia. apply for_each_snoc.
Qed.

Lemma kalman_run_ok (k : nat) :
  (k < length y)%nat ->
  kalman_run pow2 y x Q R (S k) = Ok (hr_k (S k), var k).
Proof.
  induction k as [|k IH]; intros Hk.
  - rewrite kalman_run_S. unfold kalman_run, range. simpl for_each.
    cbn [bind]. rewrite <- hr_after_0. apply kalman_step_0. lia.
  - rewrite kalman_run_S, IH by lia. cbn [bind]. apply kalman_step_S. lia.
Qed.

Lemma kalman_run_all :
  exists P, kalman_run pow2 y x Q R (length y) = Ok (map est (seq 0 (length y)), P).
Proof.
  destruct (Nat.eq_dec (length y) 0) as [E|E].
  - exists 1%float. unfold kalman_run. rewrite E. reflexivity.
  - exists (var (length y - 1)).
    pose proof (kalman_run_ok (length y - 1)) as H.
    replace (S (length y - 1)) with (length y) in H by lia.
    rewrite H by lia. unfold hr_k, hr_after; fold est.
    rewrite Nat.sub_diag. simpl repeat. now rewrite app_nil_r.
Qed.

End KalmanLoop.

Lemma kalman_hedge_ratio_ok (pow2 : float -> float) (y x : Series)
  (delta R : float) :
  length y = length x ->
  is_zero (1 - delta) = false ->
  Kalman.kalman_hedge_ratio pow2 y x delta R
  = Ok (map (Kalman.estimate pow2 (values y) (values x) (delta / (1 - delta)) R)
          (seq 0 (length y))).
Proof.
  intros Hlen Hd. unfold Kalman.kalman_hedge_ratio, py_div.
  rewrite Hd. cbn [bind].
  destruct (kalman_run_all pow2 y x (delta / (1 - delta)) R Hlen) as (P & ->).
  reflexivity.
Qed.

Lemma nth_map_seq {A : Type} (f : nat -> A) (n t : nat) (d : A) :
  (t < n)%nat -> nth t (map f (seq 0 n)) d = f t.
Proof.
  intros H. rewrite (nth_indep _ d (f 0%nat)) by now rewrite length_map, length_seq.
  rewrite (map_nth f (seq 0 n) 0%nat t). now rewrite seq_nth.
Qed.

(** ** The adaptive hedge ratio: claims *)




(** ** Binary64 facts, read off the specification of the primitive floats *)

Lemma SFeqb_refl (s : spec_float) : SFeqb s s = negb (sf_nan s).
Proof.
  unfold SFeqb. destruct s as [sg|sg| |sg m e]; simpl; try reflexivity.
  - destruct sg; reflexivity.
  - destruct sg; rewrite Z.compare_refl, Pos.compare_cont_refl; reflexivity.
Qed.

Lemma is_nan_sf (v : float) : is_nan v = sf_nan (Prim2SF v).
Proof.
  unfold is_nan. rewrite FloatAxioms.eqb_spec, SFeqb_refl. apply negb_involutive.
Qed.

Lemma is_zero_sf (v : float) : is_zero v = sf_zero (Prim2SF v).
Proof.
  unfold is_zero. rewrite FloatAxioms.eqb_spec.
  change (Prim2SF zero) with (S754_zero false).
  unfold SFeqb. destruct (Prim2SF v) as [sg|sg| |sg m e]; simpl; try reflexivity;
    destruct sg; reflexivity.
Qed.

Lemma is_finite_sf (v : float) : is_finite v = sf_finite (Prim2SF v).
Proof.
  unfold is_finite, is_infinity. rewrite is_nan_sf, FloatAxioms.eqb_spec, abs_spec.
  change (Prim2SF infinity) with (S754_infinity false).
  unfold SFeqb. destruct (Prim2SF v) as [sg|sg| |sg m e]; reflexivity.
Qed.

Lemma ltb_nan_r (a v : float) : is_nan v = true -> (a <? v)%float = false.
Proof.
  rewrite is_nan_sf, ltb_spec. unfold SFltb.
  destruct (Prim2SF v); try discriminate.
  intros _. destruct (Prim2SF a); reflexivity.
Qed.

Lemma ltb_nan_l (a v : float) : is_nan v = true -> (v <? a)%float = false.
Proof.
  rewrite is_nan_sf, ltb_spec. unfold SFltb.
  destruct (Prim2SF v); try discriminate. reflexivity.
Qed.

Lemma abs_nan (v : float) : is_nan v = true -> is_nan (abs v) = true.
Proof.
  rewrite !is_nan_sf, abs_spec. destruct (Prim2SF v); try discriminate. reflexivity.
Qed.

Ltac sf_cases :=
  repeat match goal with
    | |- context [Prim2SF ?v] => is_var v; destruct (Prim2SF v) as [[|]|[|]| |[|] ? ?]
    end; simpl; try discriminate; try reflexivity; auto.

Lemma mul_zero_r (a b : float) :
  is_finite a = true -> is_zero b = true -> is_zero (a * b) = true.
Proof.
  rewrite is_finite_sf, !is_zero_sf, mul_spec. unfold SF64mul.
  sf_cases.
Qed.

Lemma mul_zero_l (a b : float) :
  is_zero a = true -> is_finite b = true -> is_zero (a * b) = true.
Proof.
  rewrite is_finite_sf, !is_zero_sf, mul_spec. unfold SF64mul.
  sf_cases.
Qed.

Lemma zero_finite (a : float) : is_zero a = true -> is_finite a = true.
Proof. rewrite is_finite_sf, is_zero_sf. sf_cases. Qed.

Lemma add_zero_l (a b : float) :
  is_zero a = true -> is_nan b = false -> is_zero b = false -> (a + b)%float = b.
Proof.
  rewrite !is_zero_sf, is_nan_sf. intros Ha Hb Hb'.
  apply Prim2SF_inj. rewrite add_spec. unfold SF64add.
  revert Ha Hb Hb'. sf_cases.
Qed.

Lemma div_zero_l (a b : float) :
  is_zero a = true -> is_nan b = false -> is_zero b = false ->
  is_zero (a / b) = true.
Proof.
  rewrite !is_zero_sf, is_nan_sf, div_spec. unfold SF64div.
  sf_cases.
Qed.

Lemma sub_zero_r (a b : float) :
  is_finite a = true -> is_zero b = true -> is_finite (a - b) = true.
Proof.
  rewrite !is_finite_sf, is_zero_sf, sub_spec. unfold SF64sub.
  sf_cases.
Qed.

Lemma zero_cases (v : float) :
  is_zero v = true -> v = 0%float \/ v = (-0)%float.
Proof.
  rewrite is_zero_sf. destruct (Prim2SF v) as [[|]|[|]| |[|] ? ?] eqn:E;
    try discriminate; intros _;
    [right | left]; apply Prim2SF_inj; rewrite E; reflexivity.
Qed.

Lemma add_pos_zero (k : float) : is_zero k = true -> (0 + k)%float = 0%float.
Proof.
  rewrite is_zero_sf. intros Hk.
  apply Prim2SF_inj. rewrite add_spec. unfold SF64add.
  change (Prim2SF 0) with (S754_zero false).
  revert Hk. sf_cases.
Qed.

(** ** The alert engine *)

Section Alerts.
Import AlertEngine.

Lemma dropna_nil_iff (s : Series) : dropna s = [] <-> all_missing s.
Proof.
  unfold dropna, all_missing, notna. induction s as [|p s IH]; simpl.
  - split; [constructor | reflexivity].
  - destruct (is_nan (snd p)) eqn:E; simpl.
    + rewrite IH. split; [now constructor | now inversion 1].
    + split; [discriminate|]. inversion 1; congruence.
Qed.

Lemma dropna_guard (s : Series) :
  (length (dropna s) =? 0)%nat = true <-> all_missing s.
Proof.
  rewrite <- dropna_nil_iff, Nat.eqb_eq. apply length_zero_iff_nil.
Qed.

Lemma dropna_nonempty (s : Series) : dropna s <> [] -> s <> [].
Proof. intros H ->. now apply H. Qed.

Lemma dropna_last (s : Series) (p : Z * float) :
  is_nan (snd p) = false -> dropna (s ++ [p]) = dropna s ++ [p].
Proof.
  intros H. unfold dropna, notna. rewrite filter_app. simpl. now rewrite H.
Qed.

Lemma latest_defined_last (s : Series) (v : float) :
  iloc_last s = Ok v -> is_nan v = false -> latest_defined s = Ok v.
Proof.
  intros Hv Hn. unfold latest_defined.
  destruct s as [|p0 s0]; [discriminate|].
  assert (Hne : p0 :: s0 <> []) by discriminate.
  destruct (exists_last Hne) as (s' & p & E). rewrite E in *.
  rewrite iloc_last_ok in Hv by (destruct s'; discriminate).
  unfold values in Hv. rewrite map_app in Hv. cbn [map] in Hv.
  rewrite last_last in Hv.
  injection Hv as Hv. subst v.
  rewrite dropna_last by assumption.
  rewrite iloc_last_ok by (destruct (dropna s'); discriminate).
  unfold values. rewrite map_app. cbn [map]. now rewrite last_last.
Qed.

(** Every check returns: the [iloc[-1]] behind the guard cannot raise. *)
Lemma check_cases (s : Series) (th : float) :
  (all_missing s /\ check s th = Ok false) \/
  (exists v, iloc_last s = Ok v /\ check s th = Ok (th <? abs v)%float).
Proof.
  unfold check. destruct (length (dropna s) =? 0)%nat eqn:E.
  - left. split; [now apply dropna_guard | reflexivity].
  - right. assert (Hne : s <> []).
    { apply dropna_nonempty. intros H. rewrite H in E. discriminate. }
    exists (last (values s) 0%float). rewrite (iloc_last_ok s Hne).
    split; reflexivity.
Qed.

Lemma check_correlation_drop_cases (s : Series) (th : float) :
  (all_missing s /\ check_correlation_drop s th = Ok false) \/
  (exists v, iloc_last s = Ok v /\
             check_correlation_drop s th = Ok (v <? th)%float).
Proof.
  unfold check_correlation_drop. destruct (length (dropna s) =? 0)%nat eqn:E.
  - left. split; [now apply dropna_guard | reflexivity].
  - right. assert (Hne : s <> []).
    { apply dropna_nonempty. intros H. rewrite H in E. discriminate. }
    exists (last (values s) 0%float). rewrite (iloc_last_ok s Hne).
    split; reflexivity.
Qed.

Lemma all_missing_guard (s : Series) :
  all_missing s -> (length (dropna s) =? 0)%nat = true.
Proof. apply dropna_guard. Qed.

Lemma check_guarded : guarded check.
Proof.
  intros s th. destruct (check_cases s th) as [[Hm H]|(v & Hv & H)].
  - exists false. repeat split; auto. discriminate.
  - exists (th <? abs v)%float. split; [exact H|]. split; [eauto|].
    intros Hm. unfold check in H.
    rewrite (all_missing_guard s Hm) in H. now injection H.
Qed.

Lemma check_spread_guarded : guarded check_spread.
Proof. exact check_guarded. Qed.

Lemma check_correlation_drop_guarded : guarded check_correlation_drop.
Proof.
  intros s th.
  destruct (check_correlation_drop_cases s th) as [[Hm H]|(v & Hv & H)].
  - exists false. repeat split; auto. discriminate.
  - exists (v <? th)%float. split; [exact H|]. split; [eauto|].
    intros Hm. unfold check_correlation_drop in H.
    rewrite (all_missing_guard s Hm) in H. now injection H.
Qed.

(** An optional block appends at most one alert, under its own name, and
    none when its series is all missing. *)
Lemma optional_check_shape (name : string) (chk : Series -> float -> result bool)
  (s : option Series) (th : option float) (alerts : list alert) :
  guarded chk ->
  exists extra,
    optional_check name chk s th alerts = Ok (alerts ++ extra) /\
    (forall a, In a extra -> alert_name a = name) /\
    (forall s', s = Some s' -> all_missing s' -> extra = []).
Proof.
  intros Hchk. unfold optional_check.
  destruct s as [s'|]; [destruct th as [th'|]|].
  - destruct (Hchk s' th') as (b & -> & Hhit & Hmiss). cbn [bind].
    destruct b.
    + destruct (Hhit eq_refl) as (v & ->). cbn [bind].
      eexists. split; [reflexivity|]. split.
      * intros a [<-|[]]. reflexivity.
      * intros s0 [= <-] Hm. now specialize (Hmiss Hm).
    + exists []. rewrite app_nil_r. repeat split; auto. intros a [].
  - exists []. rewrite app_nil_r. repeat split; auto. intros a [].
  - exists []. rewrite app_nil_r. repeat split; auto. intros a [].
Qed.

(** [check_all] always returns; its alerts are the z-score block, then the
    spread block, then the correlation block. *)
Lemma check_all_shape (z : Series) (zt : float)
  (spread : option Series) (st : option float)
  (corr : option Series) (ct : option float) :
  exists az asp ac,
    check_all z zt spread st corr ct = Ok (az ++ asp ++ ac) /\
    (forall a, In a az -> alert_name a = "Z-Score"%string) /\
    (forall a, In a asp -> alert_name a = "Spread Width"%string) /\
    (forall a, In a ac -> alert_name a = "Correlation Drop"%string) /\
    (all_missing z -> az = []) /\
    (forall s, spread = Some s -> all_missing s -> asp = []) /\
    (forall s, corr = Some s -> all_missing s -> ac = []).
Proof.
  unfold check_all.
  destruct (check_guarded z zt) as (b & -> & Hhit & Hmiss). cbn [bind].
  assert (Hz : exists az,
             (if b then v <- iloc_last z;; Ok ([] ++ [mk_alert "Z-Score" v zt])
              else Ok []) = Ok az /\
             (forall a, In a az -> alert_name a = "Z-Score"%string) /\
             (all_missing z -> az = [])).
  { destruct b.
    - destruct (Hhit eq_refl) as (v & ->). cbn [bind]. eexists.
      split; [reflexivity|]. split.
      + intros a [<-|[]]. reflexivity.
      + intros Hm. now specialize (Hmiss Hm).
    - exists []. repeat split; auto. intros a []. }
  destruct Hz as (az & -> & Hn1 & Hm1). cbn [bind].
  destruct (optional_check_shape "Spread Width" check_spread spread st az
              check_spread_guarded) as (asp & -> & Hn2 & Hm2).
  cbn [bind].
  destruct (optional_check_shape "Correlation Drop" check_correlation_drop corr ct
              (az ++ asp) check_correlation_drop_guarded) as (ac & -> & Hn3 & Hm3).
  exists az, asp, ac. rewrite <- app_assoc. repeat split; auto.
Qed.

End Alerts.

(** ** The alert engine: claims *)

(** On [stale_z] the latest defined value is 3 and [|3| > 2], yet the check
    does not trigger: it reads the last row, which is missing. *)
Lemma check_misses_latest_defined :
  ~ (AlertEngine.check stale_z 2 = Ok true <->
     exists v, AlertEngine.latest_defined stale_z = Ok v /\
               (2 <? abs v)%float = true).
Proof.
  intros [_ H].
  assert (E : AlertEngine.check stale_z 2 = Ok true).
  { apply H. exists 3%float. split; reflexivity. }
  vm_compute in E. discriminate E.
Qed.

(** C4 (amended: the last row, not the latest defined value).  Every alert
    condition is evaluated against the last row of its metric series.  For a
    series with at least one defined value: the z-score alert triggers iff
    [|last| > threshold], likewise the spread-width alert, and the
    correlation-drop alert triggers iff [last < threshold]; when the last row
    is defined it is the latest defined value, and when it is missing none of
    the three triggers. *)
Theorem alerts_read_last_row (s : Series) (threshold : float) :
  dropna s <> [] ->
  exists v,
    iloc_last s = Ok v /\
    AlertEngine.check s threshold = Ok (threshold <? abs v)%float /\
    AlertEngine.check_spread s threshold = Ok (threshold <? abs v)%float /\
    AlertEngine.check_correlation_drop s threshold = Ok (v <? threshold)%float /\
    (is_nan v = false -> AlertEngine.latest_defined s = Ok v) /\
    (is_nan v = true ->
       AlertEngine.check s threshold = Ok false /\
       AlertEngine.check_spread s threshold = Ok false /\
       AlertEngine.check_correlation_drop s threshold = Ok false).
Proof.
  intros Hdef.
  assert (Hg : (length (dropna s) =? 0)%nat = false).
  { destruct (dropna s); [contradiction | reflexivity]. }
  pose proof (iloc_last_ok s (dropna_nonempty s Hdef)) as Hv.
  exists (last (values s) 0%float).
  assert (H1 : AlertEngine.check s threshold
               = Ok (threshold <? abs (last (values s) 0))%float).
  { unfold AlertEngine.check. now rewrite Hg, Hv. }
  assert (H2 : AlertEngine.check_correlation_drop s threshold
               = Ok (last (values s) 0 <? threshold)%float).
  { unfold AlertEngine.check_correlation_drop. now rewrite Hg, Hv. }
  split; [exact Hv|]. split; [exact H1|]. split; [exact H1|].
  split; [exact H2|]. split.
  - intros Hn. now apply latest_defined_last.
  - intros Hn.
    assert (E : AlertEngine.check s threshold = Ok false).
    { rewrite H1. now rewrite (ltb_nan_r _ _ (abs_nan _ Hn)). }
    split; [exact E|]. split; [exact E|].
    rewrite H2. now rewrite (ltb_nan_l _ _ Hn).
Qed.

Lemma alerts_read_last_row_witness :
  AlertEngine.check fresh_z 2 = Ok true /\
  AlertEngine.check_correlation_drop fresh_z 2 = Ok true /\
  AlertEngine.latest_defined fresh_z = Ok (-3)%float.
Proof.
  destruct (alerts_read_last_row fresh_z 2) as (v & Hv & H1 & _ & H3 & H4 & _).
  - vm_compute. discriminate.
  - vm_compute in Hv. injection Hv as <-.
    split; [exact H1|]. split; [exact H3|]. apply H4. reflexivity.
Defined.

(** C8. For a metric series all of whose values are missing, each alert check
    (z-score, spread width, correlation drop) returns [False] and does not
    raise; so [check_all], which always returns, holds no alert of that
    metric, whichever role the series plays, and returns the empty list when
    every series it is given is all missing. *)
Theorem alerts_all_missing (s : Series) (threshold : float) :
  AlertEngine.all_missing s ->
  (AlertEngine.check s threshold = Ok false /\
   AlertEngine.check_spread s threshold = Ok false /\
   AlertEngine.check_correlation_drop s threshold = Ok false) /\
  (forall spread st corr ct, exists alerts,
      AlertEngine.check_all s threshold spread st corr ct = Ok alerts /\
      ~ In "Z-Score"%string (AlertEngine.names alerts)) /\
  (forall z zt corr ct, exists alerts,
      AlertEngine.check_all z zt (Some s) (Some threshold) corr ct = Ok alerts /\
      ~ In "Spread Width"%string (AlertEngine.names alerts)) /\
  (forall z zt spread st, exists alerts,
      AlertEngine.check_all z zt spread st (Some s) (Some threshold) = Ok alerts /\
      ~ In "Correlation Drop"%string (AlertEngine.names alerts)) /\
  (forall spread st corr ct,
      (forall s', spread = Some s' -> AlertEngine.all_missing s') ->
      (forall s', corr = Some s' -> AlertEngine.all_missing s') ->
      AlertEngine.check_all s threshold spread st corr ct = Ok []).
Proof.
  intros Hm.
  pose proof (all_missing_guard s Hm) as Hg.
  split.
  { unfold AlertEngine.check, AlertEngine.check_spread,
      AlertEngine.check_correlation_drop. rewrite Hg. repeat split. }
  assert (Hnames : forall (l : list AlertEngine.alert) (n m : string),
             (forall a, In a l -> AlertEngine.alert_name a = n) -> n <> m ->
             ~ In m (AlertEngine.names l)).
  { intros l n m Hl Hnm Hin. unfold AlertEngine.names in Hin.
    apply in_map_iff in Hin. destruct Hin as (a & Ha & Hin).
    rewrite (Hl a Hin) in Ha. contradiction. }
  split; [|split; [|split]].
  - intros spread st corr ct.
    destruct (check_all_shape s threshold spread st corr ct)
      as (az & asp & ac & -> & H1 & H2 & H3 & Hz & _ & _).
    eexists. split; [reflexivity|].
    rewrite (Hz Hm). simpl. unfold AlertEngine.names. rewrite map_app.
    intros Hin. apply in_app_or in Hin. destruct Hin as [Hin|Hin].
    + revert Hin. apply (Hnames asp _ _ H2). discriminate.
    + revert Hin. apply (Hnames ac _ _ H3). discriminate.
  - intros z zt corr ct.
    destruct (check_all_shape z zt (Some s) (Some threshold) corr ct)
      as (az & asp & ac & -> & H1 & H2 & H3 & _ & Hs & _).
    eexists. split; [reflexivity|].
    rewrite (Hs s eq_refl Hm). simpl. unfold AlertEngine.names. rewrite map_app.
    intros Hin. apply in_app_or in Hin. destruct Hin as [Hin|Hin].
    + revert Hin. apply (Hnames az _ _ H1). discriminate.
    + revert Hin. apply (Hnames ac _ _ H3). discriminate.
  - intros z zt spread st.
    destruct (check_all_shape z zt spread st (Some s) (Some threshold))
      as (az & asp & ac & -> & H1 & H2 & H3 & _ & _ & Hc).
    eexists. split; [reflexivity|].
    rewrite (Hc s eq_refl Hm), app_nil_r. unfold AlertEngine.names.
    rewrite map_app.
    intros Hin. apply in_app_or in Hin. destruct Hin as [Hin|Hin].
    + revert Hin. apply (Hnames az _ _ H1). discriminate.
    + revert Hin. apply (Hnames asp _ _ H2). discriminate.
  - intros spread st corr ct Hsp Hco.
    unfold AlertEngine.check_all, AlertEngine.check. rewrite Hg. cbn [bind].
    unfold AlertEngine.optional_check.
    destruct spread as [s1|]; [destruct st as [t1|]|];
      destruct corr as [s2|]; try destruct ct as [t2|]; cbn [bind];
      unfold AlertEngine.check_spread, AlertEngine.check_correlation_drop;
      try rewrite (all_missing_guard s1 (Hsp s1 eq_refl));
      try rewrite (all_missing_guard s2 (Hco s2 eq_refl));
      reflexivity.
Qed.

Lemma alerts_all_missing_witness :
  AlertEngine.check blank_z 2 = Ok false /\
  AlertEngine.check_all blank_z 2 (Some blank_z) (Some 1%float) None None = Ok [].
Proof.
  assert (Hm : AlertEngine.all_missing blank_z).
  { repeat constructor. }
  destruct (alerts_all_missing blank_z 2 Hm) as ((H1 & _) & _ & _ & _ & H5).
  split; [exact H1|].
  apply H5.
  - intros s' [= <-]. exact Hm.
  - discriminate.
Defined.

(** ** The adaptive hedge ratio on an all-zero regressor *)

Section KalmanZero.
Import Kalman.
Variable pow2 : float -> float.
Variables (ys xs : list float) (Q R : float) (n : nat).
Hypothesis pow2_zero : forall v, is_zero v = true -> is_zero (pow2 v) = true.
Hypothesis x_zero : Forall (fun v => is_zero v = true) xs.
Hypothesis y_finite : Forall (fun v => is_finite v = true) ys.
Hypothesis R_defined : is_nan R = false.
Hypothesis R_nonzero : is_zero R = false.
Hypothesis P_finite : forall t, (t < n)%nat -> is_finite (prior pow2 ys xs Q R t) = true.

Lemma obs_zero (t : nat) : is_zero (obs xs t) = true.
Proof.
  unfold obs. destruct (Nat.lt_ge_cases t (length xs)) as [H|H].
  - rewrite Forall_forall in x_zero. apply x_zero, nth_In, H.
  - now rewrite nth_overflow.
Qed.

Lemma obs_finite (t : nat) : is_finite (obs ys t) = true.
Proof.
  unfold obs. destruct (Nat.lt_ge_cases t (length ys)) as [H|H].
  - rewrite Forall_forall in y_finite. apply y_finite, nth_In, H.
  - now rewrite nth_overflow.
Qed.

Lemma gain_of_zero (P xt : float) :
  is_finite P = true -> is_zero xt = true -> is_zero (gain_of pow2 R P xt) = true.
Proof.
  intros HP Hx. unfold gain_of.
  assert (Hden : (pow2 xt * P + R)%float = R).
  { apply add_zero_l; try assumption.
    apply mul_zero_l; [|exact HP].
    now apply pow2_zero. }
  rewrite Hden. apply div_zero_l; try assumption.
  now apply mul_zero_r.
Qed.

Lemma gain_zero (t : nat) : (t < n)%nat -> is_zero (gain pow2 ys xs Q R t) = true.
Proof.
  intros Ht. unfold gain. apply gain_of_zero; [now apply P_finite | apply obs_zero].
Qed.

Lemma estimate_zero (t : nat) : (t < n)%nat -> estimate pow2 ys xs Q R t = 0%float.
Proof.
  induction t as [|t IH]; intros Ht; [reflexivity|].
  specialize (IH ltac:(lia)).
  pose proof (gain_zero (S t) Ht) as HK.
  unfold gain, prior, variance in HK. unfold estimate in *.
  simpl filter_at.
  destruct (filter_at pow2 ys xs Q R t) as [h P0]. simpl in IH, HK. simpl fst.
  subst h. apply add_pos_zero.
  apply mul_zero_l; [exact HK|].
  apply sub_zero_r; [apply obs_finite|].
  apply mul_zero_l; [reflexivity | apply zero_finite, obs_zero].
Qed.

End KalmanZero.

(** ** The all-zero regressor: claims *)

(** With [R = 0] and [x = 0] the gain is the quotient [0/0]: it is [nan] from
    the first step on, and so is every estimate after the first.  This holds
    for every power with [0**2 = 0], the value the C library gives. *)
Lemma zero_noise_run (pow2 : float -> float) :
  is_zero (pow2 0%float) = true ->
  Kalman.kalman_hedge_ratio pow2 flat_y flat_x 0.0001 0 = Ok [0%float; nan] /\
  Kalman.gain pow2 (values flat_y) (values flat_x) (0.0001 / (1 - 0.0001)) 0 0 = nan.
Proof.
  intros H. destruct (zero_cases _ H) as [E|E];
    split; vm_compute; rewrite E; vm_compute; reflexivity.
Qed.

Lemma kalman_zero_regressor_unguarded :
  ~ (exists pow2,
        is_zero (pow2 0%float) = true /\
        (Kalman.kalman_hedge_ratio pow2 flat_y flat_x 0.0001 0
         = Ok [0%float; 0%float] \/
         is_zero (Kalman.gain pow2 (values flat_y) (values flat_x)
                    (0.0001 / (1 - 0.0001)) 0 0) = true)).
Proof.
  intros (pow2 & H0 & H).
  destruct (zero_noise_run pow2 H0) as [Hrun Hgain].
  rewrite Hrun, Hgain in H. destruct H as [H|H]; discriminate H.
Qed.

(** Nor do the estimates stay 0 when a value of [y] is missing, or when the
    variance is not finite (here [delta] is infinite, so [Q] is [nan]). *)
Remark kalman_zero_regressor_missing_y (pow2 : float -> float) :
  is_zero (pow2 0%float) = true ->
  Kalman.kalman_hedge_ratio pow2 holed_y flat_x 0.0001 0.01 = Ok [0%float; nan].
Proof.
  intros H. destruct (zero_cases _ H) as [E|E];
    vm_compute; rewrite E; vm_compute; reflexivity.
Qed.

Remark kalman_zero_regressor_infinite_delta (pow2 : float -> float) :
  is_zero (pow2 0%float) = true ->
  Kalman.kalman_hedge_ratio pow2 flat_y flat_x infinity 0.01 = Ok [0%float; nan].
Proof.
  intros H. destruct (zero_cases _ H) as [E|E];
    vm_compute; rewrite E; vm_compute; reflexivity.
Qed.

(** C9 (amended: provisos on [delta], [R], [y] and [P]; no guard).  For
    equal-length series [y], [x] with [x[t] = 0] for all [t] and Python
    floats [delta], [R]: when [1 - delta] is nonzero (so that [Q] is
    computed), the observation noise [R] is neither zero nor missing, every
    [y[t]] is finite and the variance [P] is finite at every step, the gain
    [K] is a zero at every step and every output element is exactly 0; the
    input is accepted, nothing is raised.  The quotient is not guarded: the
    hypotheses on [R] are what keeps its divisor nonzero.  The power is any
    one with [0**2] a zero, as the C library's is. *)
Theorem kalman_zero_regressor (pow2 : float -> float) (y x : Series)
  (delta R : float) :
  (forall v, is_zero v = true -> is_zero (pow2 v) = true) ->
  length y = length x ->
  is_zero (1 - delta) = false ->
  Forall (fun v => is_zero v = true) (values x) ->
  Forall (fun v => is_finite v = true) (values y) ->
  is_nan R = false ->
  is_zero R = false ->
  let Q := (delta / (1 - delta))%float in
  (forall t, (t < length y)%nat ->
     is_finite (Kalman.prior pow2 (values y) (values x) Q R t) = true) ->
  Kalman.kalman_hedge_ratio pow2 y x delta R = Ok (repeat 0%float (length y)) /\
  forall t, (t < length y)%nat ->
    is_zero (Kalman.gain pow2 (values y) (values x) Q R t) = true.
Proof.
  intros Hpow Hlen Hd Hx Hy HR1 HR2 Q HP. split.
  - rewrite kalman_hedge_ratio_ok by assumption. f_equal.
    apply nth_ext with (d := 0%float) (d' := 0%float).
    + now rewrite length_map, length_seq, repeat_length.
    + intros t Ht. rewrite length_map, length_seq in Ht.
      rewrite nth_map_seq by exact Ht.
      rewrite nth_repeat.
      now apply (estimate_zero pow2 _ _ _ _ (length y) Hpow Hx Hy HR1 HR2 HP).
  - intros t Ht. now apply (gain_zero pow2 _ _ _ _ (length y) Hpow Hx HR1 HR2 HP).
Qed.

Lemma kalman_zero_regressor_witness :
  Kalman.kalman_hedge_ratio rounded_square flat_y flat_x 0.0001 0.01
  = Ok [0%float; 0%float].
Proof.
  refine (proj1 (kalman_zero_regressor rounded_square flat_y flat_x 0.0001 0.01
                   _ _ _ _ _ _ _ _)).
  - intros v Hv. unfold rounded_square.
    apply mul_zero_l; [exact Hv | now apply zero_finite].
  - reflexivity.
  - vm_compute. reflexivity.
  - repeat constructor.
  - repeat constructor.
  - vm_compute. reflexivity.
  - vm_compute. reflexivity.
  - intros t Ht. simpl in Ht.
    destruct t as [|[|t]]; [vm_compute; reflexivity | vm_compute; reflexivity | lia].
Defined.

(** ** The static hedge ratio: claims *)

(** [huber_hedge_ratio] does not count its observations and has no exception
    of its own but the [IndexError] of [coef_[0]]: on the single observation
    [(1, 1)] it cannot fail with [InsufficientDataError] unless the
    regression library itself raises that exception there. *)
Lemma huber_one_observation_not_insufficient :
  ~ (exists fit,
        fit [[1%float]] [1%float] <> Raise Huber.InsufficientDataError /\
        Huber.huber_hedge_ratio fit one_point one_point
        = Raise Huber.InsufficientDataError).
Proof.
  intros (fit & Hfit & H). unfold Huber.huber_hedge_ratio in H.
  change (Huber.reshape_column (values one_point)) with [[1%float]] in H.
  change (values one_point) with [1%float] in H.
  destruct (fit [[1%float]] [1%float]) as [[|c rest]|e]; cbn [bind] in H.
  - discriminate H.
  - discriminate H.
  - apply Hfit. injection H as ->. reflexivity.
Qed.

(** C7 (amended: no count check, no [InsufficientDataError] of its own).
    Whatever the number of paired observations, [huber_hedge_ratio] hands
    [fit] the one-column matrix of the values of [x] and the values of [y],
    and its outcome is that of [fit]: it fails exactly when [fit] fails, with
    the exception of [fit], or when [fit] returns no coefficient
    ([IndexError] from [coef_[0]]); otherwise it returns the first fitted
    coefficient, a single scalar.  It raises [InsufficientDataError] only if
    [fit] does. *)
Theorem huber_delegates_to_fit
  (fit : list (list float) -> list float -> result (list float)) (y x : Series) :
  let X := Huber.reshape_column (values x) in
  let fitted := fit X (values y) in
  (length X = length x /\ Forall (fun row => length row = 1%nat) X /\
   concat X = values x) /\
  (forall e, Huber.huber_hedge_ratio fit y x = Raise e <->
             fitted = Raise e \/ (fitted = Ok [] /\ e = IndexError)) /\
  (forall c, Huber.huber_hedge_ratio fit y x = Ok c <->
             exists rest, fitted = Ok (c :: rest)) /\
  (Huber.huber_hedge_ratio fit y x = Raise Huber.InsufficientDataError ->
   fitted = Raise Huber.InsufficientDataError).
Proof.
  intros X fitted. split; [|split; [|split]].
  - unfold X, Huber.reshape_column. split; [|split].
    + now rewrite length_map, values_length.
    + apply Forall_forall. intros row Hrow. apply in_map_iff in Hrow.
      destruct Hrow as (a & <- & _). reflexivity.
    + induction (values x) as [|a l IH]; simpl; [reflexivity | now rewrite IH].
  - intros e. unfold Huber.huber_hedge_ratio. fold X. fold fitted.
    destruct fitted as [[|c rest]|e']; cbn [bind]; unfold getitem; simpl.
    + split.
      * intros [= <-]. right. now split.
      * intros [H|[_ ->]]; [discriminate H | reflexivity].
    + split; [discriminate|]. intros [H|[H _]]; discriminate H.
    + split.
      * intros [= <-]. now left.
      * intros [[= <-]|[H _]]; [reflexivity | discriminate H].
  - intros c. unfold Huber.huber_hedge_ratio. fold X. fold fitted.
    destruct fitted as [[|c' rest]|e']; cbn [bind]; unfold getitem; simpl.
    + split; [discriminate|]. intros [rest H]. discriminate H.
    + split.
      * intros [= <-]. now exists rest.
      * intros [rest' [= <- _]]. reflexivity.
    + split; [discriminate|]. intros [rest H]. discriminate H.
  - unfold Huber.huber_hedge_ratio. fold X. fold fitted.
    destruct fitted as [[|c rest]|e]; cbn [bind]; unfold getitem; simpl.
    + discriminate.
    + discriminate.
    + intros [= ->]. reflexivity.
Qed.

(** * Further properties of the code *)

(** ** The adaptive hedge ratio: lengths and causality *)

Lemma getitem_raise {A : Type} (l : list A) (i : nat) (e : exn) :
  getitem l i = Raise e -> e = IndexError.
Proof.
  unfold getitem. destruct (nth_error l i); [discriminate|].
  now intros [= <-].
Qed.

Lemma setitem_raise {A : Type} (l : list A) (i : nat) (v : A) (e : exn) :
  setitem l i v = Raise e -> e = IndexError.
Proof.
  revert i. induction l as [|a l IH]; intros i; simpl.
  - now intros [= <-].
  - destruct i as [|i]; [discriminate|].
    destruct (setitem l i v) as [l'|e'] eqn:E; cbn [bind]; [discriminate|].
    intros [= <-]. now apply (IH i).
Qed.

Lemma getitem_overflow {A : Type} (l : list A) (i : nat) :
  (length l <= i)%nat -> getitem l i = Raise IndexError.
Proof.
  intros H. unfold getitem.
  now rewrite (proj2 (nth_error_None l i) H).
Qed.

Lemma for_each_ext {S X : Type} (f g : S -> X -> result S) (xs : list X) :
  (forall st x, In x xs -> f st x = g st x) ->
  forall st, for_each f xs st = for_each g xs st.
Proof.
  induction xs as [|x xs IH]; intros H st; simpl; [reflexivity|].
  rewrite (H st x (or_introl eq_refl)).
  destruct (g st x) as [st'|e]; cbn [bind]; [|reflexivity].
  apply IH. intros st0 x0 Hin. apply H. now right.
Qed.

Lemma in_range_iff (a b t : nat) : In t (range a b) <-> (a <= t < b)%nat.
Proof. unfold range. rewrite in_seq. lia. Qed.

Lemma values_firstn (k : nat) (s : Series) : values (firstn k s) = firstn k (values s).
Proof. unfold values. symmetry. apply firstn_map. Qed.

Lemma getitem_firstn {A : Type} (l : list A) (k t : nat) :
  (t < k)%nat -> getitem (firstn k l) t = getitem l t.
Proof.
  intros H. unfold getitem. now rewrite nth_error_firstn, (proj2 (Nat.ltb_lt t k) H).
Qed.

Lemma iloc_firstn (s : Series) (k t : nat) :
  (t < k)%nat -> iloc (firstn k s) t = iloc s t.
Proof.
  intros H. unfold iloc. rewrite values_firstn. now apply getitem_firstn.
Qed.

(** A step that cannot read [x.iloc[t]] raises [IndexError], whatever the
    state: every indexing of the body raises that exception only. *)
Lemma kalman_step_no_x (pow2 : float -> float) (y x : Series) (Q R : float)
  (st : Kalman.state) (t : nat) :
  (length x <= t)%nat -> Kalman.kalman_step pow2 y x Q R st t = Raise IndexError.
Proof.
  intros H. unfold Kalman.kalman_step. destruct st as [hr P].
  assert (Hx : iloc x t = Raise IndexError).
  { apply getitem_overflow. now rewrite values_length. }
  rewrite Hx.
  destruct (0 <? t)%nat.
  - destruct (getitem hr (t - 1)) as [h|e] eqn:E; cbn [bind]; [reflexivity|].
    now rewrite (getitem_raise _ _ _ E).
  - cbn [bind]. destruct (iloc y t) as [yt|e] eqn:E; cbn [bind]; [reflexivity|].
    now rewrite (getitem_raise _ _ _ E).
Qed.

Section KalmanAnyLength.
Import Kalman.
Variable pow2 : float -> float.
Variables (y x : Series) (Q R : float).

Let est := estimate pow2 (values y) (values x) Q R.
Let var := variance pow2 (values y) (values x) Q R.
Let hr_k := hr_after pow2 y x Q R.

Lemma kalman_first_step :
  (0 < length y)%nat -> (0 < length x)%nat ->
  kalman_step pow2 y x Q R (hr_k 0, 1%float) 0 = Ok (hr_k 1, var 0%nat).
Proof.
  intros Hy Hx. unfold kalman_step. cbv beta iota zeta.
  change (0 <? 0)%nat with false. cbv iota. cbn [bind].
  rewrite (iloc_ok y 0) by lia. cbn [bind].
  rewrite (iloc_ok x 0) by lia. cbn [bind].
  unfold hr_k, hr_after; fold est. simpl seq. simpl map. simpl app.
  replace (length y - 0)%nat with (S (length y - 1)) by lia.
  simpl repeat. simpl setitem. cbn [bind]. reflexivity.
Qed.

Lemma kalman_next_step (t : nat) :
  (S t < length y)%nat -> (S t < length x)%nat ->
  kalman_step pow2 y x Q R (hr_k (S t), var t) (S t)
  = Ok (hr_k (S (S t)), var (S t)).
Proof.
  intros Hy Hx. unfold kalman_step. cbv beta iota zeta.
  change (0 <? S t)%nat with true. cbv iota.
  replace (S t - 1)%nat with t by lia.
  assert (Hget : getitem (hr_k (S t)) t = Ok (est t)).
  { unfold hr_k, hr_after; fold est. rewrite seq_S, map_app. simpl.
    pose proof (getitem_app_last (map est (seq 0 t))
                  (repeat 0%float (length y - S t)) (est t)) as G.
    rewrite length_map, length_seq in G. exact G. }
  rewrite Hget. cbn [bind].
  rewrite (iloc_ok x (S t)) by lia. cbn [bind].
  rewrite (iloc_ok y (S t)) by lia. cbn [bind].
  assert (Hset : forall v,
             setitem (hr_k (S t)) (S t) v
             = Ok (map est (seq 0 (S t)) ++ v :: repeat 0%float (length y - S (S t)))).
  { intros v. unfold hr_k, hr_after; fold est.
    replace (length y - S t)%nat with (S (length y - S (S t))) by lia.
    simpl repeat.
    pose proof (setitem_middle (map est (seq 0 (S t)))
                  (repeat 0%float (length y - S (S t))) 0%float v) as G.
    rewrite length_map, length_seq in G. exact G. }
  rewrite Hset. cbn [bind].
  unfold hr_k, hr_after; fold est.
  rewrite (seq_S (S t)), map_app, <- app_assoc. simpl.
  unfold est, var, estimate, variance. simpl filter_at.
  destruct (filter_at pow2 (values y) (values x) Q R t) as [h P0].
  reflexivity.
Qed.

Lemma kalman_run_snoc (k : nat) :
  kalman_run pow2 y x Q R (S k)
  = (st <- kalman_run pow2 y x Q R k ;; kalman_step pow2 y x Q R st k).
Proof.
  unfold kalman_run. rewrite (range_snoc 0 k (Nat.le_0_l k)). apply for_each_snoc.
Qed.

Lemma kalman_run_any (k : nat) :
  (k < length y)%nat -> (k < length x)%nat ->
  kalman_run pow2 y x Q R (S k) = Ok (hr_k (S k), var k).
Proof.
  induction k as [|k IH]; intros Hy Hx.
  - rewrite kalman_run_snoc. unfold kalman_run, range. simpl for_each. cbn [bind].
    replace (repeat 0%float (length y)) with (hr_k 0).
    + now apply kalman_first_step.
    + unfold hr_k, hr_after. simpl. now rewrite Nat.sub_0_r.
  - rewrite kalman_run_snoc, IH by lia. cbn [bind]. now apply kalman_next_step.
Qed.

(** The passes that can read both series succeed. *)
Lemma kalman_run_defined (k : nat) :
  (k <= length y)%nat -> (k <= length x)%nat ->
  exists st, kalman_run pow2 y x Q R k = Ok st.
Proof.
  intros Hy Hx. destruct k as [|k].
  - eexists. reflexivity.
  - eexists. apply kalman_run_any; lia.
Qed.

End KalmanAnyLength.

Lemma range_split (a m b : nat) :
  (a <= m < b)%nat -> range a b = range a m ++ m :: range (S m) b.
Proof.
  intros H. unfold range.
  replace (b - a)%nat with ((m - a) + S (b - S m))%nat by lia.
  rewrite seq_app. simpl. do 3 f_equal; lia.
Qed.

(** X1. When [x] has fewer observations than [y], the loop reaches an index
    that [x.iloc] cannot read and [kalman_hedge_ratio] raises [IndexError]:
    no partial result is returned. *)
Theorem kalman_short_x_raises (pow2 : float -> float) (y x : Series)
  (delta R : float) :
  (length x < length y)%nat ->
  is_zero (1 - delta) = false ->
  Kalman.kalman_hedge_ratio pow2 y x delta R = Raise IndexError.
Proof.
  intros Hlen Hd. unfold Kalman.kalman_hedge_ratio, py_div. rewrite Hd. cbn [bind].
  unfold Kalman.kalman_run.
  rewrite (range_split 0 (length x) (length y)) by lia.
  rewrite for_each_app.
  destruct (kalman_run_defined pow2 y x (delta / (1 - delta)) R (length x))
    as (st & Hst);
    [lia | lia |].
  unfold Kalman.kalman_run in Hst. rewrite Hst. cbn [bind].
  simpl for_each. rewrite kalman_step_no_x by lia. reflexivity.
Qed.

Lemma kalman_short_x_raises_witness :
  Kalman.kalman_hedge_ratio rounded_square ramp_y flat_x 0.0001 0.01
  = Raise IndexError.
Proof.
  apply kalman_short_x_raises.
  - simpl. lia.
  - vm_compute. reflexivity.
Defined.

Lemma kalman_step_firstn (pow2 : float -> float) (y x : Series) (Q R : float)
  (st : Kalman.state) (k t : nat) :
  (t < k)%nat ->
  Kalman.kalman_step pow2 y (firstn k x) Q R st t = Kalman.kalman_step pow2 y x Q R st t.
Proof.
  intros H. unfold Kalman.kalman_step. destruct st as [hr P].
  now rewrite (iloc_firstn x k t H).
Qed.

(** X2. Observations of [x] beyond the length of [y] are never read: the
    result is that of [x] cut to the length of [y], error or not. *)
Theorem kalman_ignores_surplus_x (pow2 : float -> float) (y x : Series)
  (delta R : float) :
  Kalman.kalman_hedge_ratio pow2 y x delta R
  = Kalman.kalman_hedge_ratio pow2 y (firstn (length y) x) delta R.
Proof.
  unfold Kalman.kalman_hedge_ratio.
  destruct (py_div delta (1 - delta)) as [Q|e]; cbn [bind]; [|reflexivity].
  unfold Kalman.kalman_run.
  rewrite (for_each_ext (Kalman.kalman_step pow2 y x Q R)
             (Kalman.kalman_step pow2 y (firstn (length y) x) Q R)); [reflexivity|].
  intros st t Hin. apply in_range_iff in Hin.
  symmetry. apply kalman_step_firstn. lia.
Qed.

Lemma filter_at_ext (pow2 : float -> float) (ys xs ys' xs' : list float)
  (Q R : float) (t : nat) :
  (forall i, (i <= t)%nat -> Kalman.obs ys i = Kalman.obs ys' i) ->
  (forall i, (i <= t)%nat -> Kalman.obs xs i = Kalman.obs xs' i) ->
  Kalman.filter_at pow2 ys xs Q R t = Kalman.filter_at pow2 ys' xs' Q R t.
Proof.
  induction t as [|t IH]; intros Hy Hx.
  - simpl. now rewrite (Hx 0%nat (Nat.le_refl 0)).
  - simpl.
    rewrite IH; [| intros i Hi; apply Hy; lia | intros i Hi; apply Hx; lia].
    rewrite (Hy (S t) (Nat.le_refl _)), (Hx (S t) (Nat.le_refl _)).
    reflexivity.
Qed.

Lemma obs_firstn (l : list float) (k i : nat) :
  (i < k)%nat -> Kalman.obs (firstn k l) i = Kalman.obs l i.
Proof.
  intros H. unfold Kalman.obs.
  now rewrite nth_firstn, (proj2 (Nat.ltb_lt i k) H).
Qed.

Lemma firstn_seq_0 (k n : nat) : firstn k (seq 0 n) = seq 0 (Nat.min k n).
Proof.
  revert k. generalize 0%nat.
  induction n as [|n IH]; intros a k.
  - rewrite Nat.min_0_r. now destruct k.
  - destruct k as [|k]; simpl; [reflexivity|]. now rewrite IH.
Qed.

(** X3. The filter never looks ahead: run on the first [k] observations of
    two equal-length series, it returns the first [k] ratios of the full
    run.  Later observations never change an earlier estimate. *)
Theorem kalman_no_lookahead (pow2 : float -> float) (y x : Series)
  (delta R : float) (k : nat)
  (hr : list float) :
  length y = length x ->
  Kalman.kalman_hedge_ratio pow2 y x delta R = Ok hr ->
  Kalman.kalman_hedge_ratio pow2 (firstn k y) (firstn k x) delta R = Ok (firstn k hr).
Proof.
  intros Hlen Hrun.
  assert (Hd : is_zero (1 - delta) = false).
  { unfold Kalman.kalman_hedge_ratio, py_div in Hrun.
    destruct (is_zero (1 - delta)); [discriminate Hrun | reflexivity]. }
  rewrite kalman_hedge_ratio_ok in Hrun by assumption.
  injection Hrun as <-.
  rewrite kalman_hedge_ratio_ok; [|now rewrite !length_firstn, Hlen | exact Hd].
  f_equal. rewrite firstn_map, firstn_seq_0, length_firstn.
  apply map_ext_in. intros t Ht. apply in_seq in Ht.
  unfold Kalman.estimate. f_equal. rewrite !values_firstn.
  apply filter_at_ext; intros i Hi; apply obs_firstn; lia.
Qed.

Lemma kalman_no_lookahead_witness :
  exists hr,
    Kalman.kalman_hedge_ratio rounded_square ramp_y ramp_x 0.0001 0.01 = Ok hr /\
    Kalman.kalman_hedge_ratio rounded_square (firstn 2 ramp_y) (firstn 2 ramp_x)
      0.0001 0.01
    = Ok (firstn 2 hr).
Proof.
  eexists. split; [vm_compute; reflexivity|].
  apply kalman_no_lookahead; [reflexivity | vm_compute; reflexivity].
Defined.

(** ** The backtest: a strategy that never holds a position *)

Lemma repeat_snoc {A : Type} (a : A) (k : nat) : repeat a k ++ [a] = repeat a (S k).
Proof. induction k as [|k IH]; simpl; [reflexivity | now rewrite IH]. Qed.

Section BacktestFlat.
Import Backtest.
Variables (zs : Series) (entry_z exit_z : float).

(** At the step that reads row [i] as its previous value, the entry rules do
    not fire, or the exit rule does. *)
Let flat_at (i : nat) : Prop :=
  let prev := nth i (values zs) 0%float in
  ((entry_z <? prev)%float = false /\ (prev <? - entry_z)%float = false) \/
  (abs prev <? exit_z)%float = true.

Hypothesis flat : forall i, (S i < length zs)%nat -> flat_at i.
Hypothesis moves_finite : forall i, (S i < length zs)%nat ->
  is_finite (nth (S i) (values zs) 0 - nth i (values zs) 0)%float = true.

Lemma flat_run (k : nat) :
  (k < length zs)%nat ->
  exists st, backtest_run zs entry_z exit_z k = Ok st /\
             position st = 0%Z /\ pnl st = 0%float /\
             equity_curve st = repeat 0%float k.
Proof.
  induction k as [|k IH]; intros Hk.
  - exists init. repeat split.
  - destruct IH as (st & Hrun & Hp & Hv & Hc); [lia|].
    rewrite backtest_run_S, Hrun. cbn [bind].
    rewrite backtest_step_ok by lia.
    replace (S k - 1)%nat with k by lia.
    eexists. split; [reflexivity|].
    cbn [position pnl equity_curve].
    assert (P0 : exit_rule exit_z (nth k (values zs) 0%float)
                   (entry_rule entry_z (nth k (values zs) 0%float) (position st))
                 = 0%Z).
    { rewrite Hp. unfold exit_rule, entry_rule.
      destruct (flat k Hk) as [[H1 H2]|H3].
      - rewrite H1, H2. now destruct (abs _ <? exit_z)%float.
      - now rewrite H3. }
    rewrite P0, Hv, Hc.
    assert (V0 : (0 + float_of_int 0 *
                      (nth (S k) (values zs) 0 - nth k (values zs) 0))%float
                 = 0%float).
    { apply add_pos_zero. apply mul_zero_l; [reflexivity|].
      now apply moves_finite. }
    rewrite V0. repeat split. apply repeat_snoc.
Qed.

End BacktestFlat.

(** X4. A strategy that never holds a position earns exactly nothing: when,
    at every step, the previous defined z-score does not cross the entry
    band or is inside the exit band, and consecutive defined z-scores differ
    by a finite amount, the total PnL is 0.0 and every entry of the equity
    curve is 0.0.  (An infinite move would make [0 * inf] a [nan].) *)
Theorem backtest_flat_earns_nothing (z : Series) (entry_z exit_z : float) :
  let zs := dropna z in
  let n := length zs in
  (5 <= n)%nat ->
  (forall i, (S i < n)%nat ->
     let prev := nth i (values zs) 0%float in
     ((entry_z <? prev)%float = false /\ (prev <? - entry_z)%float = false) \/
     (abs prev <? exit_z)%float = true) ->
  (forall i, (S i < n)%nat ->
     is_finite (nth (S i) (values zs) 0 - nth i (values zs) 0)%float = true) ->
  Backtest.mean_reversion_backtest z entry_z exit_z
  = Ok (0%float, mk_series (repeat 0%float (n - 1)) (tl (index zs))).
Proof.
  intros zs n Hn Hflat Hfin.
  destruct (flat_run zs entry_z exit_z Hflat Hfin (n - 1)) as (st & Hrun & _ & Hv & Hc);
    [fold n; lia|].
  destruct (backtest_run_inv zs entry_z exit_z (n - 1)) as (st' & Hrun' & [_ _ Ht _]);
    [fold n; lia|].
  rewrite Hrun in Hrun'. injection Hrun' as <-.
  unfold Backtest.mean_reversion_backtest. fold zs. fold n.
  destruct (Nat.ltb_spec n 5) as [Hlt|_]; [lia|].
  unfold Backtest.backtest_run in Hrun.
  replace (S (n - 1)) with n in Hrun by lia.
  rewrite Hrun. cbn [bind]. rewrite Hv, Hc, Ht.
  do 3 f_equal. apply firstn_all2.
  pose proof (index_length zs) as Hi. fold n in Hi.
  destruct (index zs); simpl in *; lia.
Qed.

Lemma backtest_flat_earns_nothing_witness :
  Backtest.mean_reversion_backtest calm_z 2 0.1
  = Ok (0%float, [(1%Z, 0%float); (2%Z, 0%float); (4%Z, 0%float); (5%Z, 0%float)]).
Proof.
  refine (backtest_flat_earns_nothing calm_z 2 0.1 _ _ _).
  - vm_compute. lia.
  - intros i Hi. vm_compute in Hi.
    do 4 (destruct i as [|i]; [left; split; vm_compute; reflexivity|]).
    lia.
  - intros i Hi. vm_compute in Hi.
    do 4 (destruct i as [|i]; [vm_compute; reflexivity|]).
    lia.
Defined.

(** ** The order of binary64 values *)

Ltac rank_close :=
  first [ discriminate | reflexivity
        | (let H := fresh in intros H; simpl in H; lia)
        | (let H := fresh in intros H; injection H; intros; lia)
        | (intros _; reflexivity)
        | (intros _; simpl; lia)
        | (intros _; f_equal; [f_equal|]; lia) ].

Lemma SFcompare_rank (x y : spec_float) (rx ry : Z * Z * Z) :
  sf_rank x = Some rx -> sf_rank y = Some ry ->
  exists c, SFcompare x y = Some c /\
            (c = Lt <-> lt3 rx ry) /\ (c = Eq <-> rx = ry).
Proof.
  destruct x as [[|]|[|]| |[|] m e]; try discriminate;
    destruct y as [[|]|[|]| |[|] m' e']; try discriminate;
    intros [= <-] [= <-]; simpl;
    try (eexists; split; [reflexivity|]; split; split; rank_close).
  - change (Pos.compare_cont Eq m m') with (Pos.compare m m').
    destruct (Z.compare_spec e e') as [He|He|He];
      [destruct (Pos.compare_spec m m') as [Hm|Hm|Hm]| |];
      simpl; eexists; (split; [reflexivity|]); split; split; rank_close.
  - change (Pos.compare_cont Eq m m') with (Pos.compare m m').
    destruct (Z.compare_spec e e') as [He|He|He];
      [destruct (Pos.compare_spec m m') as [Hm|Hm|Hm]| |];
      simpl; eexists; (split; [reflexivity|]); split; split; rank_close.
Qed.

Lemma ltb_flt (a b : float) : (a <? b)%float = true <-> flt a b.
Proof.
  rewrite ltb_spec. unfold flt, frank, SFltb.
  destruct (sf_rank (Prim2SF a)) as [ra|] eqn:Ea.
  - destruct (sf_rank (Prim2SF b)) as [rb|] eqn:Eb.
    + destruct (SFcompare_rank _ _ _ _ Ea Eb) as (c & -> & H1 & _).
      rewrite <- H1. destruct c; split; congruence.
    + destruct (Prim2SF b) as [[|]|[|]| |[|] ? ?]; try discriminate Eb.
      destruct (Prim2SF a) as [[|]|[|]| |[|] ? ?]; simpl; split;
        (discriminate || tauto).
  - destruct (Prim2SF a) as [[|]|[|]| |[|] ? ?]; try discriminate Ea. simpl. split; (discriminate || tauto).
Qed.

Lemma leb_fle (a b : float) : (a <=? b)%float = true <-> fle a b.
Proof.
  rewrite leb_spec. unfold fle, frank, SFleb.
  destruct (sf_rank (Prim2SF a)) as [ra|] eqn:Ea.
  - destruct (sf_rank (Prim2SF b)) as [rb|] eqn:Eb.
    + destruct (SFcompare_rank _ _ _ _ Ea Eb) as (c & -> & H1 & H2).
      destruct ra as [[c1 e1] m1], rb as [[c2 e2] m2]. unfold lt3 in H1. unfold le3.
      destruct c; split; intros H; try reflexivity; try discriminate.
      * destruct H2 as [H2 _]. specialize (H2 eq_refl).
        injection H2; intros; lia.
      * destruct H1 as [H1 _]. specialize (H1 eq_refl). lia.
      * exfalso.
        assert (N1 : ~ (c1 < c2 \/ c1 = c2 /\ (e1 < e2 \/ e1 = e2 /\ m1 < m2))%Z).
        { intros K. apply H1 in K. discriminate. }
        assert (N2 : (c1, e1, m1) <> (c2, e2, m2)).
        { intros K. apply H2 in K. discriminate. }
        apply N2. f_equal; [f_equal|]; lia.
    + destruct (Prim2SF b) as [[|]|[|]| |[|] ? ?]; try discriminate Eb.
      destruct (Prim2SF a) as [[|]|[|]| |[|] ? ?]; simpl; split;
        (discriminate || tauto).
  - destruct (Prim2SF a) as [[|]|[|]| |[|] ? ?]; try discriminate Ea. simpl. split; (discriminate || tauto).
Qed.

Lemma ltb_not_flt (a b : float) : (a <? b)%float = false <-> ~ flt a b.
Proof.
  rewrite <- ltb_flt. destruct (a <? b)%float; split; congruence.
Qed.

Lemma leb_not_fle (a b : float) : (a <=? b)%float = false <-> ~ fle a b.
Proof.
  rewrite <- leb_fle. destruct (a <=? b)%float; split; congruence.
Qed.

Lemma frank_opp (a : float) : frank (- a) = option_map neg3 (frank a).
Proof.
  unfold frank. rewrite opp_spec.
  destruct (Prim2SF a) as [[|]|[|]| |[|] m e]; simpl; try reflexivity.
  now rewrite Z.opp_involutive.
Qed.

Lemma frank_abs (a : float) :
  frank (abs a)
  = option_map (fun r => if (fst (fst r) <? 0)%Z then neg3 r else r) (frank a).
Proof.
  unfold frank. rewrite abs_spec.
  destruct (Prim2SF a) as [[|]|[|]| |[|] m e]; simpl; try reflexivity.
  now rewrite Z.opp_involutive.
Qed.

(** The zeros have rank [(0, 0, 0)], and only they have class 0. *)
Lemma frank_class (a : float) (c e m : Z) :
  frank a = Some (c, e, m) ->
  (c = 0 -> e = 0 /\ m = 0)%Z /\ (-2 <= c <= 2)%Z /\
  (c = -1 -> m < 0)%Z /\ (c = 1 -> 0 < m)%Z.
Proof.
  unfold frank.
  destruct (Prim2SF a) as [[|]|[|]| |[|] m' e']; simpl; try discriminate;
    intros [= <- <- <-]; lia.
Qed.

Lemma frank_nan (a : float) : is_nan a = true <-> frank a = None.
Proof.
  rewrite is_nan_sf. unfold frank.
  destruct (Prim2SF a) as [[|]|[|]| |[|] m' e']; simpl; split; congruence.
Qed.

Lemma frank_zero : frank 0 = Some (0, 0, 0)%Z.
Proof. reflexivity. Qed.

(** Only the zeros have class 0. *)
Lemma frank_zero_class (a : float) (c e m : Z) :
  frank a = Some (c, e, m) -> (c = 0 -> e = 0 /\ m = 0)%Z.
Proof. intros H. now apply frank_class in H. Qed.

Ltac rank_split :=
  unfold flt, fle;
  rewrite ?frank_opp, ?frank_abs, ?frank_zero;
  repeat match goal with
    | |- context [frank ?a] =>
        is_var a;
        let E := fresh "E" in
        destruct (frank a) as [[[? ?] ?]|] eqn:E
    end;
  unfold lt3, le3, neg3; simpl;
  repeat match goal with
    | |- context [(?c <? 0)%Z] => destruct (Z.ltb_spec c 0)
    end;
  unfold lt3, le3, neg3; simpl; try tauto.

Ltac by_rank := rank_split; try lia.

Ltac by_rank_zero :=
  rank_split;
  repeat match goal with
    | E : frank _ = Some _ |- _ =>
        pose proof (frank_zero_class _ _ _ _ E); clear E
    end;
  try lia.

Lemma fle_trans (a b c : float) : fle a b -> fle b c -> fle a c.
Proof. by_rank. Qed.

Lemma flt_fle_trans (a b c : float) : flt a b -> fle b c -> flt a c.
Proof. by_rank. Qed.

Lemma flt_irrefl_opp (v t : float) : fle 0 t -> flt v (- t) -> flt t v -> False.
Proof. by_rank_zero. Qed.

Lemma flt_abs (v t : float) : flt t (abs v) <-> flt v (- t) \/ flt t v.
Proof. by_rank_zero. Qed.

Lemma leb_trans (a b c : float) :
  (a <=? b)%float = true -> (b <=? c)%float = true -> (a <=? c)%float = true.
Proof. rewrite !leb_fle. apply fle_trans. Qed.

Lemma ltb_abs (v t : float) :
  (t <? abs v)%float = ((v <? - t) || (t <? v))%float.
Proof.
  apply eq_true_iff_eq. rewrite orb_true_iff, !ltb_flt. apply flt_abs.
Qed.

Lemma ltb_defined (a b : float) :
  (a <? b)%float = true -> is_nan a = false /\ is_nan b = false.
Proof.
  rewrite ltb_flt. unfold flt.
  destruct (frank a) eqn:Ea; [|tauto]. destruct (frank b) eqn:Eb; [|tauto].
  intros _. split.
  - destruct (is_nan a) eqn:N; [apply frank_nan in N; congruence | reflexivity].
  - destruct (is_nan b) eqn:N; [apply frank_nan in N; congruence | reflexivity].
Qed.

Lemma leb_defined (a b : float) :
  (a <=? b)%float = true -> is_nan a = false /\ is_nan b = false.
Proof.
  rewrite leb_fle. unfold fle.
  destruct (frank a) eqn:Ea; [|tauto]. destruct (frank b) eqn:Eb; [|tauto].
  intros _. split.
  - destruct (is_nan a) eqn:N; [apply frank_nan in N; congruence | reflexivity].
  - destruct (is_nan b) eqn:N; [apply frank_nan in N; congruence | reflexivity].
Qed.

(** ** The liquidity filter *)

Lemma filter_refine {A : Type} (f g : A -> bool) (l : list A) :
  (forall a, In a l -> g a = true -> f a = true) ->
  filter g (filter f l) = filter g l.
Proof.
  induction l as [|a l IH]; intros H; simpl; [reflexivity|].
  assert (IH' : filter g (filter f l) = filter g l).
  { apply IH. intros b Hb. apply H. now right. }
  destruct (f a) eqn:Ef; simpl.
  - now rewrite IH'.
  - destruct (g a) eqn:Eg; [|exact IH'].
    rewrite (H a (or_introl eq_refl) Eg) in Ef. discriminate.
Qed.

Lemma filter_sorted {A : Type} (R : A -> A -> Prop) (f : A -> bool) (l : list A) :
  StronglySorted R l -> StronglySorted R (filter f l).
Proof.
  induction 1 as [|a l Hs IH Hall]; simpl; [constructor|].
  destruct (f a); [|exact IH].
  constructor; [exact IH|].
  rewrite Forall_forall in *. intros b Hb. apply filter_In in Hb. now apply Hall.
Qed.

(** What a boolean mask selects: the rows at the positions where the mask
    holds, taken in increasing order of position. *)
Lemma filter_positions {A : Type} (f : A -> bool) (l : list A) :
  exists pos : list nat,
    StronglySorted lt pos /\
    (forall i, In i pos <-> exists a, nth_error l i = Some a /\ f a = true) /\
    Forall2 (fun i a => nth_error l i = Some a) pos (filter f l).
Proof.
  induction l as [|a l (pos & Hs & Hin & Hall)].
  - exists []. split; [constructor|]. split; [|constructor].
    intros i. split; [intros []|]. intros (a & H & _). now destruct i.
  - assert (Hs' : StronglySorted lt (map S pos)).
    { clear Hin Hall. induction Hs as [|i pos Hs IH Hlt]; simpl; constructor.
      - exact IH.
      - rewrite Forall_forall in *. intros j Hj. apply in_map_iff in Hj.
        destruct Hj as (k & <- & Hk). apply Hlt in Hk. lia. }
    assert (Hin' : forall i, In i (map S pos) <->
                     exists i', i = S i' /\
                       exists b, nth_error l i' = Some b /\ f b = true).
    { intros i. rewrite in_map_iff. split.
      - intros (k & <- & Hk). exists k. split; [reflexivity | now apply Hin].
      - intros (k & -> & Hk). exists k. split; [reflexivity | now apply Hin]. }
    assert (Hall' : Forall2 (fun i b => nth_error (a :: l) i = Some b)
                      (map S pos) (filter f l)).
    { clear Hs Hin Hs' Hin'. induction Hall; simpl; constructor; assumption. }
    simpl filter. destruct (f a) eqn:Ea.
    + exists (0%nat :: map S pos). split; [|split].
      * constructor; [exact Hs'|]. apply Forall_forall. intros j Hj.
        apply in_map_iff in Hj. destruct Hj as (k & <- & _). lia.
      * intros i. split.
        -- intros [<-|Hi]; [exists a; now split|].
           apply Hin' in Hi. destruct Hi as (k & -> & b & Hb & Hf).
           exists b. now split.
        -- intros (b & Hb & Hf). destruct i as [|k]; [now left|].
           right. apply Hin'. exists k. split; [reflexivity|]. now exists b.
      * constructor; [reflexivity | exact Hall'].
    + exists (map S pos). split; [exact Hs'|]. split; [|exact Hall'].
      intros i. split.
      * intros Hi. apply Hin' in Hi. destruct Hi as (k & -> & b & Hb & Hf).
        exists b. now split.
      * intros (b & Hb & Hf). destruct i as [|k].
        -- simpl in Hb. injection Hb as <-. congruence.
        -- apply Hin'. exists k. split; [reflexivity|]. now exists b.
Qed.

(** X5. [liquidity_filter] keeps exactly the bars whose volume is defined
    and at least [min_volume], in their original order: the result is the
    rows at the positions whose volume passes, taken in increasing order of
    position (so a frame in time order stays in time order); bars with a
    missing volume are dropped, and a missing threshold drops every bar. *)
Theorem liquidity_filter_keeps (bars : list Resampler.bar) (min_volume : float) :
  (exists pos : list nat,
     StronglySorted lt pos /\
     (forall i, In i pos <->
                exists b, nth_error bars i = Some b /\
                          (min_volume <=? Resampler.volume b)%float = true) /\
     Forall2 (fun i b => nth_error bars i = Some b) pos
       (Resampler.liquidity_filter bars min_volume)) /\
  (forall b, In b (Resampler.liquidity_filter bars min_volume) <->
             In b bars /\ (min_volume <=? Resampler.volume b)%float = true) /\
  (forall b, In b (Resampler.liquidity_filter bars min_volume) ->
             is_nan (Resampler.volume b) = false) /\
  (is_nan min_volume = true -> Resampler.liquidity_filter bars min_volume = []) /\
  (StronglySorted (fun a b => (Resampler.bar_time a < Resampler.bar_time b)%Z) bars ->
   StronglySorted (fun a b => (Resampler.bar_time a < Resampler.bar_time b)%Z)
     (Resampler.liquidity_filter bars min_volume)).
Proof.
  unfold Resampler.liquidity_filter. split; [|split; [|split; [|split]]].
  - apply filter_positions.
  - intros b. apply filter_In.
  - intros b Hb. apply filter_In in Hb. destruct Hb as [_ Hb].
    now apply leb_defined in Hb.
  - intros Hn. induction bars as [|b bars IH]; simpl; [reflexivity|].
    destruct (min_volume <=? Resampler.volume b)%float eqn:E; [|exact IH].
    apply leb_defined in E. destruct E as [E _]. congruence.
  - apply filter_sorted.
Qed.

(** X6. Filtering twice is filtering once with the stricter threshold: after
    a filter at [m1], a filter at [m2 >= m1] gives what the filter at [m2]
    gives on the original bars; in particular the filter is idempotent. *)
Theorem liquidity_filter_raise (bars : list Resampler.bar) (m1 m2 : float) :
  (m1 <=? m2)%float = true ->
  Resampler.liquidity_filter (Resampler.liquidity_filter bars m1) m2
  = Resampler.liquidity_filter bars m2 /\
  Resampler.liquidity_filter (Resampler.liquidity_filter bars m2) m2
  = Resampler.liquidity_filter bars m2.
Proof.
  intros H. unfold Resampler.liquidity_filter. split.
  - apply filter_refine. intros b _ Hb. now apply (leb_trans m1 m2).
  - apply filter_refine. intros b _ Hb. exact Hb.
Qed.

Lemma liquidity_filter_raise_witness :
  Resampler.liquidity_filter (Resampler.liquidity_filter sample_bars 1) 10
  = Resampler.liquidity_filter sample_bars 10.
Proof.
  apply (liquidity_filter_raise sample_bars 1 10). vm_compute. reflexivity.
Defined.

(** ** Signals and alerts *)

Lemma check_value (z : Series) (th v : float) :
  dropna z <> [] -> iloc_last z = Ok v ->
  AlertEngine.check z th = Ok (th <? abs v)%float.
Proof.
  intros Hd Hv. unfold AlertEngine.check.
  destruct (dropna z) eqn:E; [contradiction|]. simpl. now rewrite Hv.
Qed.

Lemma all_missing_last (z : Series) :
  AlertEngine.all_missing z -> z <> [] -> is_nan (last (values z) 0%float) = true.
Proof.
  intros Hm Hne. destruct (exists_last Hne) as (z' & p & ->).
  unfold values. rewrite map_app. cbn [map]. rewrite last_last.
  unfold AlertEngine.all_missing in Hm. rewrite Forall_forall in Hm.
  apply Hm. apply in_or_app. right. now left.
Qed.

(** X7. The z-score alert and the signal banner of the dashboard agree: on a
    non-empty z-score series, whose last row is [v], the alert triggers
    exactly when the banner reads LONG or SHORT, that is when
    [v < -z_thresh] or [v > z_thresh]; with a missing last row there is
    neither an alert nor a signal. *)
Theorem alert_iff_signal (z : Series) (z_thresh : float) :
  z <> [] ->
  exists v,
    iloc_last z = Ok v /\
    (AlertEngine.check z z_thresh = Ok true <->
     App.trading_signal v z_thresh <> App.NEUTRAL) /\
    (is_nan v = true ->
     AlertEngine.check z z_thresh = Ok false /\
     App.trading_signal v z_thresh = App.NEUTRAL).
Proof.
  intros Hne.
  pose proof (iloc_last_ok z Hne) as Hv.
  exists (last (values z) 0%float). split; [exact Hv|].
  assert (Hnan : is_nan (last (values z) 0%float) = true ->
                 App.trading_signal (last (values z) 0%float) z_thresh = App.NEUTRAL).
  { intros N. unfold App.trading_signal.
    now rewrite (ltb_nan_l _ _ N), (ltb_nan_r _ _ N). }
  destruct (dropna z) as [|p l] eqn:E.
  - assert (Hm : AlertEngine.all_missing z) by now apply dropna_nil_iff.
    pose proof (all_missing_last z Hm Hne) as N.
    assert (C : AlertEngine.check z z_thresh = Ok false).
    { unfold AlertEngine.check. now rewrite E. }
    rewrite C, (Hnan N). split; [|now split].
    split; [discriminate | congruence].
  - assert (Hd : dropna z <> []) by (rewrite E; discriminate).
    rewrite (check_value z z_thresh _ Hd Hv), ltb_abs.
    split.
    + unfold App.trading_signal.
      destruct (last (values z) 0 <? - z_thresh)%float;
        destruct (z_thresh <? last (values z) 0)%float; simpl;
        split; intros H; try congruence; try discriminate.
    + intros N. split; [|now apply Hnan].
      now rewrite (ltb_nan_l _ _ N), (ltb_nan_r _ _ N).
Qed.

Lemma alert_iff_signal_witness :
  AlertEngine.check fresh_z 2 = Ok true /\
  App.trading_signal (-3) 2 = App.LONG.
Proof.
  destruct (alert_iff_signal fresh_z 2) as (v & Hv & H & _).
  - discriminate.
  - vm_compute in Hv. injection Hv as <-.
    split; [|reflexivity]. apply H. vm_compute. discriminate.
Defined.

Lemma filter_count_disjoint {A : Type} (f g h : A -> bool) (l : list A) :
  (forall a, f a = true -> g a = false /\ h a = true) ->
  (forall a, g a = true -> h a = true) ->
  (length (filter f l) + length (filter g l) <= length (filter h l))%nat.
Proof.
  intros Hf Hg. induction l as [|a l IH]; simpl; [lia|].
  destruct (f a) eqn:Ef.
  - destruct (Hf a Ef) as [-> ->]. simpl. lia.
  - destruct (g a) eqn:Eg.
    + rewrite (Hg a Eg). simpl. lia.
    + destruct (h a); simpl; lia.
Qed.

(** X8. For a threshold [z_thresh >= 0], the long and the short signals of
    the dashboard never overlap: no row of the z-score series is in both,
    every signal is a defined row of the series, so that rows with a missing
    z-score are in neither, and together they are at most the defined
    rows. *)
Theorem signals_disjoint (z : Series) (z_thresh : float) :
  (0 <=? z_thresh)%float = true ->
  (forall p, In p (App.long_signals z z_thresh) ->
             ~ In p (App.short_signals z z_thresh)) /\
  (forall p, In p (App.long_signals z z_thresh) \/
             In p (App.short_signals z z_thresh) -> In p (dropna z)) /\
  (forall p, In p z -> is_nan (snd p) = true ->
             ~ In p (App.long_signals z z_thresh) /\
             ~ In p (App.short_signals z z_thresh)) /\
  (length (App.long_signals z z_thresh) + length (App.short_signals z z_thresh)
   <= length (dropna z))%nat.
Proof.
  intros Ht.
  assert (D : forall v, (v <? - z_thresh)%float = true ->
                        (z_thresh <? v)%float = false /\ notna v = true).
  { intros v Hv. split.
    - destruct (z_thresh <? v)%float eqn:E; [|reflexivity].
      exfalso. apply (flt_irrefl_opp v z_thresh).
      + now apply leb_fle.
      + now apply ltb_flt.
      + now apply ltb_flt.
    - unfold notna. apply ltb_defined in Hv. now rewrite (proj1 Hv). }
  assert (U : forall v, (z_thresh <? v)%float = true -> notna v = true).
  { intros v Hv. unfold notna. apply ltb_defined in Hv. now rewrite (proj2 Hv). }
  split; [|split; [|split]].
  - intros p Hl Hs. unfold App.long_signals, App.short_signals in *.
    apply filter_In in Hl. apply filter_In in Hs.
    destruct (D _ (proj2 Hl)) as [E _]. destruct Hs as [_ Hs]. congruence.
  - intros p H. unfold App.long_signals, App.short_signals, dropna in *.
    apply filter_In.
    destruct H as [H|H]; apply filter_In in H; destruct H as [Hin Hp];
      (split; [exact Hin|]); [exact (proj2 (D _ Hp)) | exact (U _ Hp)].
  - intros p _ Hn. unfold App.long_signals, App.short_signals.
    split; intros H; apply filter_In in H; destruct H as [_ Hp].
    + pose proof (proj2 (D _ Hp)) as N. unfold notna in N.
      rewrite Hn in N. discriminate N.
    + pose proof (U _ Hp) as N. unfold notna in N.
      rewrite Hn in N. discriminate N.
  - unfold App.long_signals, App.short_signals, dropna.
    apply filter_count_disjoint.
    + intros p Hp. exact (D _ Hp).
    + intros p Hp. unfold notna. apply ltb_defined in Hp. now rewrite (proj2 Hp).
Qed.

Lemma signals_disjoint_witness :
  (length (App.long_signals gappy_z 2) + length (App.short_signals gappy_z 2)
   <= length (dropna gappy_z))%nat.
Proof.
  apply (signals_disjoint gappy_z 2). vm_compute. reflexivity.
Defined.

Section AlertReports.
Import AlertEngine.

Lemma optional_check_exact (name : string) (chk : Series -> float -> result bool)
  (s : option Series) (th : option float) (alerts : list alert) :
  guarded chk ->
  optional_check name chk s th alerts = Ok (alerts ++ alert_for name chk s th).
Proof.
  intros Hchk. unfold optional_check, alert_for.
  destruct s as [s'|]; [destruct th as [t|]|]; try now rewrite app_nil_r.
  destruct (Hchk s' t) as (b & -> & Hhit & _). cbn [bind].
  destruct b; [|now rewrite app_nil_r].
  destruct (Hhit eq_refl) as (v & ->). reflexivity.
Qed.

Lemma check_all_exact (z : Series) (zt : float)
  (spread : option Series) (st : option float)
  (corr : option Series) (ct : option float) :
  check_all z zt spread st corr ct
  = Ok (alert_for "Z-Score" check (Some z) (Some zt)
        ++ alert_for "Spread Width" check_spread spread st
        ++ alert_for "Correlation Drop" check_correlation_drop corr ct).
Proof.
  unfold check_all. unfold alert_for at 1.
  destruct (check_guarded z zt) as (b & -> & Hhit & _). cbn [bind].
  destruct b.
  - destruct (Hhit eq_refl) as (v & ->). cbn [bind app].
    rewrite (optional_check_exact _ _ spread st _ check_spread_guarded). cbn [bind].
    rewrite (optional_check_exact _ _ corr ct _ check_correlation_drop_guarded).
    now rewrite <- app_assoc.
  - cbn [bind app].
    rewrite (optional_check_exact _ _ spread st _ check_spread_guarded). cbn [bind].
    now rewrite (optional_check_exact _ _ corr ct _ check_correlation_drop_guarded).
Qed.

Lemma alert_for_sound (name : string) (chk : Series -> float -> result bool)
  (s : option Series) (th : option float) (a : alert) :
  In a (alert_for name chk s th) ->
  alert_name a = name /\
  exists s', s = Some s' /\ th = Some (alert_threshold a) /\
             iloc_last s' = Ok (alert_value a) /\
             chk s' (alert_threshold a) = Ok true.
Proof.
  unfold alert_for. destruct s as [s'|]; [|intros []].
  destruct th as [t|]; [|intros []].
  destruct (chk s' t) as [[|]|e] eqn:E; try (intros []).
  destruct (iloc_last s') as [v|e] eqn:V; [|intros []].
  intros [<-|[]]. simpl. split; [reflexivity|].
  exists s'. repeat split; assumption.
Qed.

End AlertReports.

Lemma check_true (s : Series) (th v : float) :
  AlertEngine.check s th = Ok true -> iloc_last s = Ok v ->
  (th <? abs v)%float = true.
Proof.
  unfold AlertEngine.check. destruct (length (dropna s) =? 0)%nat; [discriminate|].
  intros H Hv. rewrite Hv in H. cbn [bind] in H. now injection H.
Qed.

Lemma check_correlation_drop_true (s : Series) (th v : float) :
  AlertEngine.check_correlation_drop s th = Ok true -> iloc_last s = Ok v ->
  (v <? th)%float = true.
Proof.
  unfold AlertEngine.check_correlation_drop.
  destruct (length (dropna s) =? 0)%nat; [discriminate|].
  intros H Hv. rewrite Hv in H. cbn [bind] in H. now injection H.
Qed.

Lemma abs_defined (v : float) : is_nan (abs v) = false -> is_nan v = false.
Proof.
  intros H. destruct (is_nan v) eqn:E; [|reflexivity].
  now rewrite (abs_nan v E) in H.
Qed.

(** X9. [check_all] never raises, and every alert it returns is genuine: it
    carries the name of one of the three rules, the threshold configured for
    that rule and the last row of that rule's series, and that value, which
    is never a missing one, does satisfy the rule
    ([|value| > threshold], or [value < threshold] for a correlation drop). *)
Theorem check_all_sound (z : Series) (z_thresh : float)
  (spread : option Series) (spread_thresh : option float)
  (corr : option Series) (corr_thresh : option float) :
  exists alerts,
    AlertEngine.check_all z z_thresh spread spread_thresh corr corr_thresh
    = Ok alerts /\
    forall a, In a alerts ->
      let v := AlertEngine.alert_value a in
      let t := AlertEngine.alert_threshold a in
      is_nan v = false /\
      ((AlertEngine.alert_name a = "Z-Score"%string /\ t = z_thresh /\
        iloc_last z = Ok v /\ (t <? abs v)%float = true) \/
       (AlertEngine.alert_name a = "Spread Width"%string /\
        exists s, spread = Some s /\ spread_thresh = Some t /\
                  iloc_last s = Ok v /\ (t <? abs v)%float = true) \/
       (AlertEngine.alert_name a = "Correlation Drop"%string /\
        exists s, corr = Some s /\ corr_thresh = Some t /\
                  iloc_last s = Ok v /\ (v <? t)%float = true)).
Proof.
  eexists. split; [apply check_all_exact|].
  intros a Hin v t.
  apply in_app_or in Hin. destruct Hin as [Hin|Hin];
    [|apply in_app_or in Hin; destruct Hin as [Hin|Hin]];
    apply alert_for_sound in Hin;
    destruct Hin as (Hn & s' & Hs & Ht & Hv & Hc).
  - injection Hs as <-. injection Ht as Ht.
    pose proof (check_true _ _ _ Hc Hv) as Hcmp.
    split; [apply abs_defined; now apply ltb_defined in Hcmp|].
    left. fold t in Ht, Hcmp. fold v in Hv, Hcmp. now repeat split.
  - pose proof (check_true _ _ _ Hc Hv) as Hcmp.
    split; [apply abs_defined; now apply ltb_defined in Hcmp|].
    right; left. split; [exact Hn|]. exists s'. now repeat split.
  - pose proof (check_correlation_drop_true _ _ _ Hc Hv) as Hcmp.
    split; [now apply ltb_defined in Hcmp|].
    right; right. split; [exact Hn|]. exists s'. now repeat split.
Qed.

Lemma alert_for_names (name : string) (chk : Series -> float -> result bool)
  (s : option Series) (th : option float) :
  guarded chk ->
  exists b : bool,
    AlertEngine.names (alert_for name chk s th) = (if b then [name] else []) /\
    (b = true <-> exists s' t, s = Some s' /\ th = Some t /\ chk s' t = Ok true).
Proof.
  intros Hchk. unfold alert_for.
  destruct s as [s'|]; [destruct th as [t|]|].
  - destruct (Hchk s' t) as (b & E & Hhit & _). rewrite E.
    destruct b.
    + destruct (Hhit eq_refl) as (v & ->). exists true. split; [reflexivity|].
      split; [|reflexivity]. intros _. exists s', t. now repeat split.
    + exists false. split; [reflexivity|]. split; [discriminate|].
      intros (s0 & t0 & [= <-] & [= <-] & H). congruence.
  - exists false. split; [reflexivity|]. split; [discriminate|].
    intros (s0 & t0 & _ & H & _). discriminate.
  - exists false. split; [reflexivity|]. split; [discriminate|].
    intros (s0 & t0 & H & _). discriminate.
Qed.

(** X10. [check_all] reports every enabled rule that triggers, exactly once
    and in the fixed order Z-Score, Spread Width, Correlation Drop: the
    names of the alerts are those of the rules whose check returns [True];
    a rule whose series or threshold is [None] is never reported. *)
Theorem check_all_complete (z : Series) (z_thresh : float)
  (spread : option Series) (spread_thresh : option float)
  (corr : option Series) (corr_thresh : option float) :
  exists alerts (bz bs bc : bool),
    AlertEngine.check_all z z_thresh spread spread_thresh corr corr_thresh
    = Ok alerts /\
    AlertEngine.names alerts
    = (if bz then ["Z-Score"%string] else [])
      ++ (if bs then ["Spread Width"%string] else [])
      ++ (if bc then ["Correlation Drop"%string] else []) /\
    (bz = true <-> AlertEngine.check z z_thresh = Ok true) /\
    (bs = true <-> exists s t, spread = Some s /\ spread_thresh = Some t /\
                               AlertEngine.check_spread s t = Ok true) /\
    (bc = true <-> exists s t, corr = Some s /\ corr_thresh = Some t /\
                               AlertEngine.check_correlation_drop s t = Ok true).
Proof.
  destruct (alert_for_names "Z-Score" AlertEngine.check (Some z) (Some z_thresh)
              check_guarded) as (bz & Nz & Hz).
  destruct (alert_for_names "Spread Width" AlertEngine.check_spread spread
              spread_thresh check_spread_guarded) as (bs & Ns & Hs).
  destruct (alert_for_names "Correlation Drop" AlertEngine.check_correlation_drop
              corr corr_thresh check_correlation_drop_guarded) as (bc & Nc & Hc).
  eexists. exists bz, bs, bc. split; [apply check_all_exact|].
  split.
  - unfold AlertEngine.names in *. rewrite !map_app. now rewrite Nz, Ns, Nc.
  - split; [|split; assumption].
    rewrite Hz. split.
    + intros (s' & t & [= <-] & [= <-] & H). exact H.
    + intros H. exists z, z_thresh. now repeat split.
Qed.

(** ** Cross-correlation *)

Lemma py_range_length (a b : Z) : length (Features.py_range a b) = Z.to_nat (b - a).
Proof. unfold Features.py_range. now rewrite length_map, length_seq. Qed.

Lemma py_range_nth (a b : Z) (k : nat) (d : Z) :
  (k < Z.to_nat (b - a))%nat ->
  nth k (Features.py_range a b) d = (a + Z.of_nat k)%Z.
Proof.
  intros H. unfold Features.py_range.
  rewrite (nth_indep _ d (a + Z.of_nat 0)%Z) by now rewrite length_map, length_seq.
  rewrite (map_nth (fun i => (a + Z.of_nat i)%Z)). now rewrite seq_nth.
Qed.

Lemma py_range_In (a b l : Z) : In l (Features.py_range a b) <-> (a <= l < b)%Z.
Proof.
  unfold Features.py_range. rewrite in_map_iff. split.
  - intros (i & <- & Hi). apply in_seq in Hi. lia.
  - intros H. exists (Z.to_nat (l - a)). split; [lia|]. apply in_seq. lia.
Qed.

(** X11. [cross_corr] returns the lags [-max_lag, ..., max_lag] in increasing
    order and one correlation per lag, in the same order: the entry at
    position [k] is the correlation of [x] with [y] shifted by
    [k - max_lag], so the unshifted correlation sits at position [max_lag].
    For a negative [max_lag] both sequences are empty. *)
Theorem cross_corr_shape (corr : Series -> Series -> float)
  (shift : Series -> Z -> Series) (x y : Series) (max_lag : Z) :
  let lags := fst (Features.cross_corr corr shift x y max_lag) in
  let cs := snd (Features.cross_corr corr shift x y max_lag) in
  length lags = Z.to_nat (2 * max_lag + 1) /\
  length cs = length lags /\
  (forall l, In l lags <-> (- max_lag <= l <= max_lag)%Z) /\
  (forall k, (k < length lags)%nat ->
     nth k lags 0%Z = (Z.of_nat k - max_lag)%Z /\
     nth k cs 0%float = corr x (shift y (Z.of_nat k - max_lag)%Z)).
Proof.
  unfold Features.cross_corr. cbn [fst snd].
  assert (L : length (Features.py_range (- max_lag) (max_lag + 1))
              = Z.to_nat (2 * max_lag + 1)).
  { rewrite py_range_length. f_equal. lia. }
  split; [exact L|]. split; [apply length_map|]. split.
  - intros l. rewrite py_range_In. lia.
  - intros k Hk. rewrite L in Hk.
    assert (N : nth k (Features.py_range (- max_lag) (max_lag + 1)) 0%Z
                = (Z.of_nat k - max_lag)%Z).
    { rewrite py_range_nth by (replace (max_lag + 1 - - max_lag)%Z
                                 with (2 * max_lag + 1)%Z by lia; exact Hk).
      lia. }
    split; [exact N|].
    rewrite (nth_indep _ 0%float (corr x (shift y 0%Z)))
      by now rewrite length_map, L.
    rewrite (map_nth (fun lag => corr x (shift y lag))). now rewrite N.
Qed.

(** ** The tick store *)

Section TickStoreFacts.
Import TickStore.

Let by_time (a b : tick) : Prop := (timestamp a <= timestamp b)%Z.

Lemma place_perm (t : tick) (rows : list tick) : Permutation (place t rows) (t :: rows).
Proof.
  induction rows as [|u rows IH]; simpl; [reflexivity|].
  destruct (timestamp t <=? timestamp u)%Z; [reflexivity|].
  rewrite IH. apply perm_swap.
Qed.

Lemma place_sorted (t : tick) (rows : list tick) :
  StronglySorted by_time rows -> StronglySorted by_time (place t rows).
Proof.
  induction 1 as [|u rows Hs IH Hall]; simpl.
  - repeat constructor.
  - destruct (Z.leb_spec (timestamp t) (timestamp u)) as [Hle|Hgt].
    + constructor; [now constructor|].
      constructor; [exact Hle|].
      rewrite Forall_forall in *. intros w Hw. specialize (Hall w Hw).
      unfold by_time in *. lia.
    + constructor; [exact IH|].
      rewrite Forall_forall in *. intros w Hw.
      apply (Permutation_in _ (place_perm t rows)) in Hw.
      destruct Hw as [<-|Hw]; [unfold by_time; lia | now apply Hall].
Qed.

Lemma order_by_timestamp_perm (rows : list tick) :
  Permutation (order_by_timestamp rows) rows.
Proof.
  induction rows as [|t rows IH]; simpl; [reflexivity|].
  rewrite place_perm. now constructor.
Qed.

Lemma order_by_timestamp_sorted (rows : list tick) :
  StronglySorted by_time (order_by_timestamp rows).
Proof.
  induction rows as [|t rows IH]; simpl; [constructor|].
  now apply place_sorted.
Qed.

End TickStoreFacts.

Lemma fetch_ticks_member (con : TickStore.table) (sym : string) (t : TickStore.tick) :
  In t con /\ TickStore.symbol t = sym -> In t (TickStore.fetch_ticks con sym).
Proof.
  intros [H1 H2]. unfold TickStore.fetch_ticks.
  apply (Permutation_in _ (Permutation_sym (order_by_timestamp_perm _))).
  apply filter_In. split; [exact H1|]. now apply String.eqb_eq.
Qed.

(** X12. [fetch_ticks] returns exactly the stored ticks of the requested
    symbol, each as often as it was inserted, in increasing order of their
    timestamps; ticks of any other symbol never appear. *)
Theorem fetch_ticks_spec (con : TickStore.table) (sym : string) :
  let rows := TickStore.fetch_ticks con sym in
  Permutation rows (filter (fun t => String.eqb (TickStore.symbol t) sym) con) /\
  (forall t, In t rows <-> In t con /\ TickStore.symbol t = sym) /\
  StronglySorted
    (fun a b => (TickStore.timestamp a <= TickStore.timestamp b)%Z) rows.
Proof.
  unfold TickStore.fetch_ticks. cbv zeta.
  pose proof (order_by_timestamp_perm
                (filter (fun t => String.eqb (TickStore.symbol t) sym) con)) as P.
  split; [exact P|]. split.
  - intros t. split.
    + intros H. apply (Permutation_in _ P) in H. apply filter_In in H.
      destruct H as [H1 H2]. now apply String.eqb_eq in H2.
    + intros [H1 H2]. apply (Permutation_in _ (Permutation_sym P)).
      apply filter_In. split; [exact H1|]. now apply String.eqb_eq.
  - apply order_by_timestamp_sorted.
Qed.


(** ** Spread and z-score *)

Lemma is_infinity_sf (v : float) :
  is_infinity v = match Prim2SF v with S754_infinity _ => true | _ => false end.
Proof.
  unfold is_infinity. rewrite FloatAxioms.eqb_spec, abs_spec.
  change (Prim2SF infinity) with (S754_infinity false).
  unfold SFeqb. destruct (Prim2SF v) as [sg|sg| |sg m e]; reflexivity.
Qed.

Lemma sub_zero_keeps (a b : float) :
  is_zero b = true ->
  (a - b)%float = a \/ (is_zero (a - b) = true /\ is_zero a = true).
Proof.
  rewrite !is_zero_sf, sub_spec. unfold SF64sub. intros Hb.
  destruct (Prim2SF b) as [[|]|[|]| |[|] ? ?] eqn:Eb; try discriminate Hb;
    destruct (Prim2SF a) as [[|]|[|]| |[|] ? ?] eqn:Ea; simpl;
    try (right; split; reflexivity);
    left; apply Prim2SF_inj; rewrite sub_spec, Ea, Eb; reflexivity.
Qed.

Lemma sub_nan_r (a b : float) : is_nan b = true -> is_nan (a - b) = true.
Proof.
  rewrite !is_nan_sf, sub_spec. unfold SF64sub.
  destruct (Prim2SF b); try discriminate. intros _.
  destruct (Prim2SF a); reflexivity.
Qed.

Lemma div_nan_l (a b : float) : is_nan a = true -> is_nan (a / b) = true.
Proof.
  rewrite !is_nan_sf, div_spec. unfold SF64div.
  destruct (Prim2SF a); try discriminate. reflexivity.
Qed.

Lemma div_nan_r (a b : float) : is_nan b = true -> is_nan (a / b) = true.
Proof.
  rewrite !is_nan_sf, div_spec. unfold SF64div.
  destruct (Prim2SF b); try discriminate. intros _.
  destruct (Prim2SF a); reflexivity.
Qed.

Lemma div_zero_r (a b : float) :
  is_zero b = true ->
  is_nan (a / b) = (is_nan a || is_zero a)%bool /\
  (is_nan (a / b) = false -> is_infinity (a / b) = true).
Proof.
  rewrite is_infinity_sf, !is_nan_sf, !is_zero_sf, div_spec. unfold SF64div.
  destruct (Prim2SF b) as [[|]|[|]| |[|] ? ?]; try discriminate; intros _;
    destruct (Prim2SF a) as [[|]|[|]| |[|] ? ?]; simpl; split;
    (reflexivity || discriminate || auto).
Qed.

(** The quotient of two finite values is never [nan]: the rounding of a
    non-negative mantissa yields a zero, a finite value or an infinity. *)
Lemma shr_1_nonneg (mrs : shr_record) :
  (0 <= shr_m mrs)%Z -> (0 <= shr_m (shr_1 mrs))%Z.
Proof.
  destruct mrs as [m r s]. simpl. destruct m as [|[p|p|]|p]; simpl; lia.
Qed.

Lemma iter_shr_1_nonneg (p : positive) (mrs : shr_record) :
  (0 <= shr_m mrs)%Z -> (0 <= shr_m (SpecFloat.iter_pos shr_1 p mrs))%Z.
Proof.
  revert mrs. induction p as [p IH|p IH|]; intros mrs H; simpl.
  - apply IH, IH, shr_1_nonneg, H.
  - apply IH, IH, H.
  - now apply shr_1_nonneg.
Qed.

Lemma shr_fexp_nonneg (prec emax m e : Z) (l : location) :
  (0 <= m)%Z -> (0 <= shr_m (fst (shr_fexp prec emax m e l)))%Z.
Proof.
  intros H. unfold shr_fexp, shr.
  assert (H0 : (0 <= shr_m (shr_record_of_loc m l))%Z)
    by (destruct l as [|[| |]]; exact H).
  destruct (fexp prec emax (Zdigits2 m + e) - e)%Z; simpl; try exact H0.
  now apply iter_shr_1_nonneg.
Qed.

Lemma round_nearest_even_nonneg (m : Z) (l : location) :
  (0 <= m)%Z -> (0 <= round_nearest_even m l)%Z.
Proof.
  intros H. destruct l as [|[| |]]; simpl; try lia.
  destruct (Z.even m); lia.
Qed.

Lemma binary_round_aux_defined (prec emax : Z) (sx : bool) (m e : Z)
  (l : location) :
  (0 <= m)%Z -> binary_round_aux prec emax sx m e l <> S754_nan.
Proof.
  intros H. unfold binary_round_aux.
  pose proof (shr_fexp_nonneg prec emax m e l H) as H1.
  destruct (shr_fexp prec emax m e l) as [mrs' e']. simpl in H1.
  pose proof (shr_fexp_nonneg prec emax _ e' loc_Exact
                (round_nearest_even_nonneg _ (loc_of_shr_record mrs') H1)) as H2.
  destruct (shr_fexp prec emax _ e' loc_Exact) as [mrs'' e'']. simpl in H2.
  destruct (shr_m mrs'') as [|q|q]; try discriminate; [|lia].
  destruct (e'' <=? emax - prec)%Z; discriminate.
Qed.

Lemma SFdiv_core_nonneg (prec emax : Z) (m1 m2 : positive) (e1 e2 : Z) :
  (0 <= fst (fst (SFdiv_core_binary prec emax (Zpos m1) e1 (Zpos m2) e2)))%Z.
Proof.
  unfold SFdiv_core_binary.
  set (s := (e1 - e2 - _)%Z).
  set (m' := match s with
             | Zpos _ => Z.shiftl (Zpos m1) s
             | Z0 => Zpos m1
             | Zneg _ => 0%Z
             end).
  assert (Hm : (0 <= m')%Z).
  { unfold m'. destruct s; try lia. apply Z.shiftl_nonneg. lia. }
  pose proof (Z_div_mod m' (Zpos m2) ltac:(lia)) as D.
  destruct (Z.div_eucl m' (Zpos m2)) as [q r]. simpl. nia.
Qed.

Lemma SFdiv_nan (prec emax : Z) (a b : spec_float) :
  sf_nan (SFdiv prec emax a b)
  = (sf_nan a || sf_nan b || (sf_zero a && sf_zero b)
     || (sf_infinite a && sf_infinite b))%bool.
Proof.
  destruct a as [sa|sa| |sa ma ea], b as [sb|sb| |sb mb eb]; try reflexivity.
  simpl SFdiv.
  pose proof (SFdiv_core_nonneg prec emax ma mb ea eb) as H.
  destruct (SFdiv_core_binary prec emax (Zpos ma) ea (Zpos mb) eb) as [[mz ez] lz].
  simpl in H.
  pose proof (binary_round_aux_defined prec emax (xorb sa sb) mz ez lz H) as N.
  destruct (binary_round_aux prec emax (xorb sa sb) mz ez lz); try reflexivity.
  now contradiction N.
Qed.

(** A quotient is missing exactly when an operand is, or both are zero, or
    both are infinite. *)
Lemma div_nan_iff (a b : float) :
  is_nan (a / b)
  = (is_nan a || is_nan b || (is_zero a && is_zero b)
     || (is_infinity a && is_infinity b))%bool.
Proof.
  rewrite !is_nan_sf, !is_zero_sf, !is_infinity_sf, div_spec.
  unfold SF64div. rewrite SFdiv_nan. reflexivity.
Qed.

Section SeriesArithmetic.
Import Features.

Lemma series_scale_index (c : float) (s : Series) : index (series_scale c s) = index s.
Proof. unfold series_scale, index. rewrite map_map. reflexivity. Qed.

Lemma series_scale_nth (c : float) (s : Series) (i : nat) :
  (i < length s)%nat ->
  nth i (values (series_scale c s)) 0%float = (c * nth i (values s) 0)%float.
Proof.
  intros H. unfold series_scale, values. rewrite map_map.
  rewrite (nth_indep _ 0%float (c * snd (0%Z, 0%float))%float)
    by now rewrite length_map.
  rewrite (map_nth (fun p => (c * snd p)%float) s (0%Z, 0%float)).
  f_equal.
  rewrite (nth_indep _ 0%float (snd (0%Z, 0%float))) by now rewrite length_map.
  now rewrite (map_nth snd).
Qed.

Lemma equal_index_length (a b : Series) : index a = index b -> length a = length b.
Proof. intros H. rewrite <- (index_length a), <- (index_length b). now rewrite H. Qed.

Lemma series_op_index (f : float -> float -> float) (a b : Series) :
  index a = index b -> index (series_op f a b) = index a.
Proof.
  intros H. apply equal_index_length in H. unfold series_op, index.
  rewrite map_map. simpl.
  revert b H. induction a as [|p a IH]; intros [|q b] H; simpl in *;
    try discriminate; [reflexivity|].
  f_equal. apply IH. lia.
Qed.

Lemma series_op_nth (f : float -> float -> float) (a b : Series) (i : nat) :
  length a = length b -> (i < length a)%nat ->
  nth i (values (series_op f a b)) 0%float
  = f (nth i (values a) 0%float) (nth i (values b) 0%float).
Proof.
  unfold series_op, values. rewrite map_map. simpl.
  revert b i. induction a as [|p a IH]; intros [|q b] i H Hi; simpl in *;
    try discriminate; [lia|].
  destruct i as [|i]; [reflexivity|]. apply IH; lia.
Qed.

End SeriesArithmetic.

(** X14. With a hedge ratio of zero and finite values of [x], the spread of
    two series on the same index is [y] itself, on that index: every value
    equals that of [y], except that a zero of [y] may come back as the zero
    of the other sign.  (An infinite or missing [x[i]] makes [0 * x[i]], and
    so the spread, a missing value.) *)
Theorem spread_zero_ratio (rolling_mean rolling_std : Series -> Z -> Series)
  (y x : Series) (hr : float) (window : Z) :
  index y = index x ->
  is_zero hr = true ->
  Forall (fun v => is_finite v = true) (values x) ->
  let spread := fst (Features.spread_and_zscore rolling_mean rolling_std y x hr window) in
  index spread = index y /\
  forall i, (i < length y)%nat ->
    let s := nth i (values spread) 0%float in
    let yi := nth i (values y) 0%float in
    s = yi \/ (is_zero s = true /\ is_zero yi = true).
Proof.
  intros Hidx Hhr Hx. unfold Features.spread_and_zscore. cbn [fst].
  assert (Hlen : length y = length x) by now apply equal_index_length.
  split.
  - apply series_op_index. now rewrite series_scale_index.
  - intros i Hi. cbv zeta.
    rewrite series_op_nth;
      [| unfold Features.series_scale; now rewrite length_map | exact Hi].
    rewrite series_scale_nth by lia.
    apply sub_zero_keeps. apply mul_zero_l; [exact Hhr|].
    rewrite Forall_forall in Hx. apply Hx, nth_In. rewrite values_length. lia.
Qed.

Lemma spread_zero_ratio_witness :
  index (fst (Features.spread_and_zscore ones_kernel zeros_kernel
                ramp_y ramp_x 0 2)) = index ramp_y.
Proof.
  refine (proj1 (spread_zero_ratio ones_kernel zeros_kernel ramp_y ramp_x 0 2
                   _ _ _)); [reflexivity | reflexivity | repeat constructor].
Defined.

(** X15. The z-score is the plain quotient [(spread - mean) / std] on every
    row, with no special case.  For series on one index and kernels that keep
    it: a row whose rolling mean or deviation is missing has a missing
    z-score; on a row whose deviation is zero the z-score is missing exactly
    when [spread - mean] is zero or missing, and is infinite otherwise. *)
Theorem zscore_pointwise (rolling_mean rolling_std : Series -> Z -> Series)
  (y x : Series) (hr : float) (window : Z) :
  let spread := fst (Features.spread_and_zscore rolling_mean rolling_std y x hr window) in
  let z := snd (Features.spread_and_zscore rolling_mean rolling_std y x hr window) in
  let mean := rolling_mean spread window in
  let std := rolling_std spread window in
  index y = index x ->
  index mean = index spread ->
  index std = index spread ->
  index z = index y /\
  forall i, (i < length y)%nat ->
    let s := nth i (values spread) 0%float in
    let m := nth i (values mean) 0%float in
    let d := nth i (values std) 0%float in
    let zi := nth i (values z) 0%float in
    zi = ((s - m) / d)%float /\
    (is_nan m = true \/ is_nan d = true -> is_nan zi = true) /\
    (is_zero d = true ->
       is_nan zi = (is_nan (s - m) || is_zero (s - m))%bool /\
       (is_nan zi = false -> is_infinity zi = true)).
Proof.
  intros spread z mean std Hidx Hm Hd.
  assert (Hs : index spread = index y).
  { unfold spread, Features.spread_and_zscore. cbn [fst].
    apply series_op_index. now rewrite series_scale_index. }
  assert (Ls : length spread = length y) by now apply equal_index_length.
  assert (Lm : length mean = length spread) by now apply equal_index_length.
  assert (Ld : length std = length spread) by now apply equal_index_length.
  assert (Hsm : index (Features.series_op PrimFloat.sub spread mean) = index spread).
  { apply series_op_index. now symmetry. }
  assert (Lsm : length (Features.series_op PrimFloat.sub spread mean) = length spread)
    by now apply equal_index_length.
  assert (Ez : z = Features.series_op PrimFloat.div
                     (Features.series_op PrimFloat.sub spread mean) std)
    by reflexivity.
  split.
  - rewrite Ez, series_op_index; [now rewrite Hsm | now rewrite Hsm, Hd].
  - intros i Hi. cbv zeta.
    assert (Hz : nth i (values z) 0%float
                 = ((nth i (values spread) 0 - nth i (values mean) 0)
                    / nth i (values std) 0)%float).
    { rewrite Ez, series_op_nth by lia.
      now rewrite series_op_nth by lia. }
    rewrite Hz. split; [reflexivity|]. split.
    + intros [N|N]; [apply div_nan_l, sub_nan_r, N | apply div_nan_r, N].
    + intros Z0. now apply div_zero_r.
Qed.

Lemma zscore_pointwise_witness :
  is_infinity
    (nth 1 (values (snd (Features.spread_and_zscore ones_kernel zeros_kernel
                           step_y flat_x 0 2))) 0%float) = true.
Proof.
  destruct (zscore_pointwise ones_kernel zeros_kernel step_y flat_x 0 2)
    as [_ H]; [reflexivity | reflexivity | reflexivity |].
  destruct (H 1%nat) as (_ & _ & Hz); [simpl; lia|].
  apply Hz; reflexivity.
Defined.

(** ** The z-score: claims *)

(** The rows of the z-score, for series on one index and kernels that keep
    it. *)
Lemma zscore_rows (rolling_mean rolling_std : Series -> Z -> Series)
  (y x : Series) (hr : float) (window : Z) :
  let spread := fst (Features.spread_and_zscore rolling_mean rolling_std y x hr window) in
  let z := snd (Features.spread_and_zscore rolling_mean rolling_std y x hr window) in
  let mean := rolling_mean spread window in
  let std := rolling_std spread window in
  index y = index x ->
  index mean = index spread ->
  index std = index spread ->
  index z = index y /\ length spread = length y /\
  forall i, (i < length y)%nat ->
    nth i (values z) 0%float
    = ((nth i (values spread) 0 - nth i (values mean) 0)
       / nth i (values std) 0)%float.
Proof.
  intros spread z mean std Hidx Hm Hd.
  assert (Hs : index spread = index y).
  { unfold spread, Features.spread_and_zscore. cbn [fst].
    apply series_op_index. now rewrite series_scale_index. }
  assert (Ls : length spread = length y) by now apply equal_index_length.
  assert (Lm : length mean = length spread) by now apply equal_index_length.
  assert (Ld : length std = length spread) by now apply equal_index_length.
  assert (Hsm : index (Features.series_op PrimFloat.sub spread mean) = index spread).
  { apply series_op_index. now symmetry. }
  assert (Lsm : length (Features.series_op PrimFloat.sub spread mean) = length spread)
    by now apply equal_index_length.
  assert (Ez : z = Features.series_op PrimFloat.div
                     (Features.series_op PrimFloat.sub spread mean) std)
    by reflexivity.
  split; [|split; [exact Ls|]].
  - rewrite Ez, series_op_index; [now rewrite Hsm | now rewrite Hsm, Hd].
  - intros i Hi. rewrite Ez, series_op_nth by lia.
    now rewrite series_op_nth by lia.
Qed.

(** The kernels of the specification's words keep the index of their series
    and are missing where fewer than [window] observations are available. *)
Lemma rolling_index (stat : list float -> float) (s : Series) (window : Z) :
  index (Rolling.rolling stat s window) = index s.
Proof.
  unfold Rolling.rolling, index at 1. rewrite map_map. simpl.
  apply nth_ext with (d := 0%Z) (d' := 0%Z).
  - now rewrite length_map, length_seq, index_length.
  - intros i Hi. rewrite length_map, length_seq in Hi.
    now rewrite nth_map_seq.
Qed.

Lemma rolling_warm_up (stat : list float -> float) (s : Series) (window : Z)
  (i : nat) :
  (i < length s)%nat -> (Z.of_nat i < window - 1)%Z ->
  is_nan (nth i (values (Rolling.rolling stat s window)) 0%float) = true.
Proof.
  intros Hi Hw. unfold Rolling.rolling, values. rewrite map_map. simpl.
  rewrite nth_map_seq by exact Hi.
  replace (S i <? Z.to_nat window)%nat with true; [reflexivity|].
  symmetry. apply Nat.ltb_lt. lia.
Qed.

(** With the kernels of the specification's words, the two-row series
    [0, 1e-200] at window 2 has a rolling deviation of exactly 0 on its
    second row and a z-score of [+infinity] there: an infinite value, not a
    missing one. *)
Lemma zscore_infinite_at_zero_deviation :
  values (Rolling.std
            (fst (Features.spread_and_zscore Rolling.mean Rolling.std
                    tiny_y flat_x 1 2)) 2)
  = [nan; 0%float] /\
  values (snd (Features.spread_and_zscore Rolling.mean Rolling.std
                 tiny_y flat_x 1 2))
  = [nan; infinity].
Proof. split; vm_compute; reflexivity. Qed.

(** C5 (amended: no special case for a zero deviation; defined rows by the
    operands of the quotient).  For series [y], [x] on one index and rolling
    kernels that keep the index of the spread and give a missing deviation
    on the first [W - 1] rows, the z-score of [spread_and_zscore] is the
    binary64 quotient [(spread - mean) / std] on every row.  It is missing on
    the first [W - 1] rows.  On any row it is defined exactly when
    [spread - mean] and the deviation are defined, not both zero and not
    both infinite.  When the rolling deviation is 0 the z-score is missing
    only if [spread - mean] is 0 or missing, and is an infinite value
    otherwise. *)
Theorem zscore_defined_rows (rolling_mean rolling_std : Series -> Z -> Series)
  (y x : Series) (hr : float) (window : Z) :
  let spread := fst (Features.spread_and_zscore rolling_mean rolling_std y x hr window) in
  let z := snd (Features.spread_and_zscore rolling_mean rolling_std y x hr window) in
  let mean := rolling_mean spread window in
  let std := rolling_std spread window in
  index y = index x ->
  index mean = index spread ->
  index std = index spread ->
  (forall i, (i < length spread)%nat -> (Z.of_nat i < window - 1)%Z ->
     is_nan (nth i (values std) 0%float) = true) ->
  index z = index y /\
  (forall i, (i < length y)%nat -> (Z.of_nat i < window - 1)%Z ->
     is_nan (nth i (values z) 0%float) = true) /\
  (forall i, (i < length y)%nat ->
     let n := (nth i (values spread) 0 - nth i (values mean) 0)%float in
     let d := nth i (values std) 0%float in
     let zi := nth i (values z) 0%float in
     zi = (n / d)%float /\
     is_nan zi = (is_nan n || is_nan d || (is_zero n && is_zero d)
                  || (is_infinity n && is_infinity d))%bool /\
     (is_zero d = true -> is_nan n = false -> is_zero n = false ->
      is_infinity zi = true)).
Proof.
  intros spread z mean std Hidx Hm Hd Hwarm.
  destruct (zscore_rows rolling_mean rolling_std y x hr window Hidx Hm Hd)
    as (Hz & Ls & Hrow).
  fold spread in Ls, Hrow. fold z in Hz, Hrow. fold mean in Hrow. fold std in Hrow.
  split; [exact Hz|]. split.
  - intros i Hi Hw. rewrite Hrow by exact Hi.
    apply div_nan_r, Hwarm; [now rewrite Ls | exact Hw].
  - intros i Hi. cbv zeta. rewrite Hrow by exact Hi.
    split; [reflexivity|]. split; [apply div_nan_iff|].
    intros D0 N1 N2.
    destruct (div_zero_r (nth i (values spread) 0 - nth i (values mean) 0)%float
                _ D0) as [E F].
    apply F. rewrite E, N1, N2. reflexivity.
Qed.

Lemma zscore_defined_rows_witness :
  is_nan (nth 0 (values (snd (Features.spread_and_zscore Rolling.mean Rolling.std
                                tiny_y flat_x 1 2))) 0%float) = true /\
  is_infinity (nth 1 (values (snd (Features.spread_and_zscore Rolling.mean
                                     Rolling.std tiny_y flat_x 1 2))) 0%float)
  = true.
Proof.
  destruct (zscore_defined_rows Rolling.mean Rolling.std tiny_y flat_x 1 2)
    as (_ & Hlead & Hrow).
  - reflexivity.
  - reflexivity.
  - reflexivity.
  - intros i Hi Hw. simpl in Hi.
    destruct i as [|[|i]]; [vm_compute; reflexivity | lia | lia].
  - split.
    + apply Hlead; [simpl; lia | lia].
    + destruct (Hrow 1%nat) as (_ & _ & Hinf); [simpl; lia|].
      apply Hinf; vm_compute; reflexivity.
Defined.

(** ** Uploading bars into the tick store *)

Lemma insert_as_dict (engine_bind : list TickStore.value -> result TickStore.tick)
  (con : TickStore.table) (t : TickStore.tick) :
  TickStore.insert_tick engine_bind con (TickStore.as_dict t) = (con ++ [t], Ok tt).
Proof. destruct t. reflexivity. Qed.

Section UploadFacts.
Import TickStore.
Variable engine_bind : list value -> result tick.
Variable cell : Type.
Variable to_datetime : cell -> result Z.
Variable upper_str : cell -> string.
Variable to_float : cell -> result float.

Let convert := tick_of_row cell to_datetime upper_str to_float.
Let upload := insert_ohlc_bars engine_bind cell to_datetime upper_str to_float.

Lemma upload_prefix (good : list (ohlc_row cell)) (ticks : list tick) :
  Forall2 (fun row t => convert row = Ok t) good ticks ->
  forall con rest, upload con (good ++ rest) = upload (con ++ ticks) rest.
Proof.
  induction 1 as [|row t good ticks Hrow _ IH]; intros con rest.
  - now rewrite app_nil_r.
  - unfold upload, convert in *. rewrite <- app_comm_cons.
    cbn [insert_ohlc_bars]. rewrite Hrow, insert_as_dict, IH.
    now rewrite <- app_assoc.
Qed.

Lemma convert_fields (row : ohlc_row cell) (t : tick) :
  convert row = Ok t ->
  exists c, row_symbol cell row = Some c /\ symbol t = upper_str c /\
            (row_volume cell row = None -> qty t = 0%float).
Proof.
  unfold convert, tick_of_row, row_get.
  destruct (row_timestamp cell row) as [c1|]; cbn [bind]; [|discriminate].
  destruct (to_datetime c1) as [ts|e]; cbn [bind]; [|discriminate].
  destruct (row_symbol cell row) as [c2|]; cbn [bind]; [|discriminate].
  destruct (row_close cell row) as [c3|]; cbn [bind]; [|discriminate].
  destruct (to_float c3) as [p|e]; cbn [bind]; [|discriminate].
  destruct (row_volume cell row) as [c4|].
  - destruct (to_float c4) as [q|e]; cbn [bind]; [|discriminate].
    intros [= <-]. exists c2. repeat split. discriminate.
  - cbn [bind]. intros [= <-]. exists c2. repeat split.
Qed.

End UploadFacts.

(** X16. An upload that fails leaves its earlier rows in the store: when the
    rows before some row convert to ticks and that row raises (a missing
    column, a value that does not convert), [insert_ohlc_bars] ends with
    that exception and the table holds the ticks of the earlier rows,
    appended in row order; the later rows are not read. *)
Theorem upload_stops_at_bad_row
  (engine_bind : list TickStore.value -> result TickStore.tick) (cell : Type)
  (to_datetime : cell -> result Z) (upper_str : cell -> string)
  (to_float : cell -> result float)
  (con : TickStore.table) (good rest : list (TickStore.ohlc_row cell))
  (bad : TickStore.ohlc_row cell) (ticks : list TickStore.tick) (e : exn) :
  Forall2 (fun row t =>
             TickStore.tick_of_row cell to_datetime upper_str to_float row = Ok t)
    good ticks ->
  TickStore.tick_of_row cell to_datetime upper_str to_float bad = Raise e ->
  TickStore.insert_ohlc_bars engine_bind cell to_datetime upper_str to_float con
    (good ++ bad :: rest)
  = (con ++ ticks, Raise e).
Proof.
  intros Hgood Hbad.
  rewrite (upload_prefix engine_bind cell to_datetime upper_str to_float good ticks Hgood).
  simpl. now rewrite Hbad.
Qed.

Lemma upload_stops_at_bad_row_witness :
  TickStore.insert_ohlc_bars strict_engine string demo_datetime demo_upper demo_float []
    [good_row; bad_row; good_row]
  = ([good_tick], Raise (OtherError "ValueError")).
Proof.
  apply (upload_stops_at_bad_row strict_engine string demo_datetime demo_upper demo_float
           [] [good_row] [good_row] bad_row [good_tick]).
  - repeat constructor.
  - reflexivity.
Defined.

(** X17. An upload whose rows all convert appends one tick per row, in row
    order, and ends normally; each tick carries the upper-cased symbol of
    its row and the quantity 0.0 when the frame has no [volume] column, and
    [fetch_ticks] returns it for that symbol. *)
Theorem upload_then_fetch
  (engine_bind : list TickStore.value -> result TickStore.tick) (cell : Type)
  (to_datetime : cell -> result Z) (upper_str : cell -> string)
  (to_float : cell -> result float)
  (con : TickStore.table) (df : list (TickStore.ohlc_row cell))
  (ticks : list TickStore.tick) :
  Forall2 (fun row t =>
             TickStore.tick_of_row cell to_datetime upper_str to_float row = Ok t)
    df ticks ->
  TickStore.insert_ohlc_bars engine_bind cell to_datetime upper_str to_float con df
  = (con ++ ticks, Ok tt) /\
  Forall2 (fun row t =>
             exists c, TickStore.row_symbol cell row = Some c /\
                       TickStore.symbol t = upper_str c /\
                       (TickStore.row_volume cell row = None ->
                        TickStore.qty t = 0%float))
    df ticks /\
  (forall t, In t ticks ->
             In t (TickStore.fetch_ticks (con ++ ticks) (TickStore.symbol t))).
Proof.
  intros H. split; [|split].
  - pose proof (upload_prefix engine_bind cell to_datetime upper_str to_float df ticks H con [])
      as P.
    rewrite app_nil_r in P. rewrite P. reflexivity.
  - induction H as [|row t df ticks Hrow _ IH]; constructor; [|exact IH].
    now apply (convert_fields cell to_datetime upper_str to_float).
  - intros t Ht. apply fetch_ticks_member. split; [|reflexivity].
    apply in_or_app. now right.
Qed.

Lemma upload_then_fetch_witness :
  TickStore.insert_ohlc_bars strict_engine string demo_datetime demo_upper demo_float []
    [good_row; good_row]
  = ([good_tick; good_tick], Ok tt).
Proof.
  refine (proj1 (upload_then_fetch strict_engine string demo_datetime demo_upper demo_float
                   [] [good_row; good_row] [good_tick; good_tick] _)).
  repeat constructor.
Defined.
